(** * Real-time coordination layer of [src/routes/+layout.svelte]

    A shallow embedding of the script block of the root layout: the sandbox
    runner ([executePythonAsWorker]), the tool invoker ([executeTool]), the two
    socket event handlers ([chatEventHandler], [channelEventHandler]), the
    session guard ([checkTokenExpiry]) and the tab coordinator
    ([handleVisibilityChange] together with the broadcast-channel listener).

    The code is event driven.  Every handler is embedded as a function from
    the stores it reads (and the outcome of the collaborators it awaits) to
    the stores it writes and the list of effects it performs, in program
    order.  Collaborators that live outside this file of the repository (the
    API wrappers, the worker script) and the objects of the platform (the
    stream reader and its decoder, the service-worker registrations) are
    inputs of the handlers: their outcome is a parameter, never a fixed
    behaviour. *)

From Stdlib Require Import List ZArith Bool String Ascii Lia.
From Stdlib Require Import Permutation Sorted DecimalString.
Import ListNotations.
Local Open Scope string_scope.
Local Open Scope Z_scope.
Set Warnings "-register-all".

(* ================================================================== *)
(** * Part I: the model *)
(* ================================================================== *)

(** ** JavaScript values, as far as the handlers look at them *)

Module Js.

(** Strings are held as their UTF-8 bytes, one [ascii] for each byte, so
    a literal of this file is the string of the same spelling.  Numbers are
    the integer-valued doubles the handlers compute with (counts, epoch
    seconds), held as [Z]; objects are association lists in property
    order. *)
Inductive jsval : Type :=
| JUndefined
| JNull
| JBool (b : bool)
| JNum (n : Z)
| JBigInt (n : Z)
| JStr (s : string)
| JArr (xs : list jsval)
| JObj (fields : list (string * jsval)).

(** ToBoolean, used by [if (x)], [x && y] and [.filter(Boolean)]. *)
Definition truthy (v : jsval) : bool :=
  match v with
  | JUndefined | JNull => false
  | JBool b => b
  | JNum n | JBigInt n => negb (n =? 0)
  | JStr s => negb (String.eqb s "")
  | JArr _ | JObj _ => true
  end.

(** [a === b] on primitives.  Two object or array values met by the
    handlers are never the same reference as a literal they are compared
    with, so the comparison is [false] on them. *)
Definition strictEq (a b : jsval) : bool :=
  match a, b with
  | JUndefined, JUndefined => true
  | JNull, JNull => true
  | JBool x, JBool y => Bool.eqb x y
  | JNum x, JNum y => x =? y
  | JBigInt x, JBigInt y => x =? y
  | JStr x, JStr y => String.eqb x y
  | _, _ => false
  end.

(** [a ?? b] *)
Definition nullish (v : jsval) : bool :=
  match v with JUndefined | JNull => true | _ => false end.

Definition coalesce (a b : jsval) : jsval := if nullish a then b else a.

(** Arithmetic on numbers is that of IEEE 754 doubles.  Every integer up
    to 2^53 in magnitude is a double; above, the doubles between 2^e and
    2^(e+1) are the multiples of 2^(e-52), which is [ulp].  [toDouble n] is
    what an operation whose exact result is the integer [n] returns: the
    nearest double and, half way between two, the one with the even
    significand. *)
Definition ulp (n : Z) : Z :=
  if Z.abs n <? 9007199254740992 (* 2^53 *) then 1
  else 2 ^ (Z.log2 (Z.abs n) - 52).

Definition toDouble (n : Z) : Z :=
  let u := ulp n in
  let q := n / u in
  let r := n mod u in
  if 2 * r <? u then q * u
  else if u <? 2 * r then (q + 1) * u
  else if Z.even q then q * u else (q + 1) * u.

(** [a + b] on two numbers *)
Definition numAdd (a b : Z) : Z := toDouble (a + b).

(** [xs.indexOf(x)]: first index whose element is strictly equal, else -1. *)
Fixpoint indexOfFrom (x : jsval) (xs : list jsval) (i : Z) : Z :=
  match xs with
  | [] => -1
  | y :: r => if strictEq y x then i else indexOfFrom x r (i + 1)
  end.

Definition indexOf (xs : list jsval) (x : jsval) : Z := indexOfFrom x xs 0.

(** [s.includes(sub)] *)
Fixpoint includes (s sub : string) : bool :=
  String.prefix sub s ||
  match s with
  | EmptyString => false
  | String _ r => includes r sub
  end.

(** Decimal rendering of an integer, as [BigInt.prototype.toString]. *)
Definition decimal (n : Z) : string := NilZero.string_of_int (Z.to_int n).

(** [JSON.parse(JSON.stringify(v, replacer))] for a defined [v], with the
    replacer of the sandbox runner, [(_k, v) => typeof v === 'bigint' ?
    v.toString() : v]: a bigint becomes its decimal string, a property whose
    value is undefined is dropped, an undefined array element becomes null. *)
Fixpoint jsonValue (v : jsval) : jsval :=
  match v with
  | JBigInt n => JStr (decimal n)
  | JArr xs =>
      JArr (map (fun x => match x with
                          | JUndefined => JNull
                          | _ => jsonValue x
                          end) xs)
  | JObj fs =>
      JObj ((fix props (l : list (string * jsval)) : list (string * jsval) :=
               match l with
               | [] => []
               | (k, x) :: r =>
                   match x with
                   | JUndefined => props r
                   | _ => (k, jsonValue x) :: props r
                   end
               end) fs)
  | _ => v
  end.

(** Does the value hold a bigint anywhere?  Without a replacer
    [JSON.stringify] throws a TypeError on one. *)
Fixpoint hasBigInt (v : jsval) : bool :=
  match v with
  | JBigInt _ => true
  | JArr xs => existsb hasBigInt xs
  | JObj fs =>
      (fix any (l : list (string * jsval)) : bool :=
         match l with
         | [] => false
         | (_, x) :: r => hasBigInt x || any r
         end) fs
  | _ => false
  end.

(** [JSON.parse(JSON.stringify(v))] with no replacer: [None] when it throws
    (stringify of undefined is undefined, which does not parse; a bigint is
    a TypeError). *)
Definition jsonClone (v : jsval) : option jsval :=
  match v with
  | JUndefined => None
  | _ => if hasBigInt v then None else Some (jsonValue v)
  end.

(** Outcome of an awaited collaborator. *)
Inductive Awaited (A : Type) : Type :=
| Resolves (a : A)
| Rejects (e : jsval).
Arguments Resolves {A} a.
Arguments Rejects {A} e.

(** How an async handler ends: its promise is fulfilled, or rejected with
    the error that escaped it. *)
Inductive Completion : Type :=
| Fulfilled
| Rejected (e : jsval).

(** [a === b] where either side may be undefined ([None]). *)
Definition optStrEq (a b : option string) : bool :=
  match a, b with
  | Some x, Some y => String.eqb x y
  | None, None => true
  | _, _ => false
  end.

(** [`${x}`] for a string that may be undefined. *)
Definition template (o : option string) : string :=
  match o with Some s => s | None => "undefined" end.

(** [xs.sort(compare)].  ECMAScript (2019 on) requires the sort to be
    stable, and for a consistent comparator the result is the one ordered
    arrangement that keeps equal elements in their input order.  Stable
    insertion sort computes that arrangement: [x] goes in front of the first
    [y] with [compare x y <= 0]. *)
Section Sort.
Context {A : Type} (compare : A -> A -> Z).

Fixpoint insertSorted (x : A) (l : list A) : list A :=
  match l with
  | [] => [x]
  | y :: r => if compare x y <=? 0 then x :: y :: r else y :: insertSorted x r
  end.

Fixpoint sort (l : list A) : list A :=
  match l with
  | [] => []
  | x :: r => insertSorted x (sort r)
  end.
End Sort.

End Js.
Import Js.

(** ** Channel events: [channelEventHandler] *)

Module Channel.

Record Channel : Type := {
  ch_id : string;
  ch_type : jsval;
  ch_name : option string;
  unread_count : option Z;        (* a count; None: undefined or null *)
  last_message_at : jsval
}.

(** The literal [['', null, 'group', 'dm']] of both sort calls. *)
Definition typeOrder : list jsval := [JStr ""; JNull; JStr "group"; JStr "dm"].

Definition priority (c : Channel) : Z := indexOf typeOrder (ch_type c).

(** [(a, b) => [...].indexOf(a.type) - [...].indexOf(b.type)] *)
Definition compareChannels (a b : Channel) : Z := priority a - priority b.

Definition sortChannels (res : list Channel) : list Channel :=
  sort compareChannels res.

(** The envelope of a channel event, with the fields the handler reads. *)
Record Event : Type := {
  ev_type : option string;          (* event.data?.type *)
  ev_channel_id : string;           (* event.channel_id *)
  ev_user_id : option string;       (* event?.user?.id *)
  ev_created_at : jsval;            (* event.created_at *)
  ev_channel_type : jsval;          (* event?.channel?.type *)
  ev_channel_name : option string;  (* event?.channel?.name *)
  ev_author_name : option string;   (* data?.user?.name *)
  ev_author_id : option string;     (* data?.user?.id *)
  ev_content : jsval                (* data?.content *)
}.

(** The stores and the page state the handler reads. *)
Record Stores : Type := {
  channels : option (list Channel);   (* $channels *)
  channelId : option string;          (* $channelId *)
  userId : option string;             (* $user?.id *)
  pathname : string;                  (* $page.url.pathname *)
  visible : bool;                     (* document.visibilityState === 'visible' *)
  isLastActiveTab : bool;             (* $isLastActiveTab *)
  notificationEnabled : bool;         (* truthiness of $settings?.notificationEnabled *)
  WEBUI_API_BASE_URL : string         (* constant of $lib/constants *)
}.

Inductive Effect : Type :=
| GetChannels                                        (* getChannels(localStorage.token) *)
| Notify (title : string) (body : jsval) (icon : string)
| Toast (target : string) (content : jsval) (title : string).

Definition setChannels (st : Stores) (chs : option (list Channel)) : Stores :=
  {| channels := chs;
     channelId := channelId st;
     userId := userId st;
     pathname := pathname st;
     visible := visible st;
     isLastActiveTab := isLastActiveTab st;
     notificationEnabled := notificationEnabled st;
     WEBUI_API_BASE_URL := WEBUI_API_BASE_URL st |}.

(** [const res = await getChannels(token).catch(() => null);
     if (res) channels.set(res.sort(...))]: a rejection and a null result
    both leave the store as it is. *)
Definition refetch (fetch : Awaited (option (list Channel)))
  (chs : option (list Channel)) : option (list Channel) :=
  match fetch with
  | Resolves (Some res) => Some (sortChannels res)
  | Resolves None => chs
  | Rejects _ => chs
  end.

(** [{ ...ch, unread_count: (ch.unread_count ?? 0) + 1,
       last_message_at: event.created_at }] *)
Definition bump (ev : Event) (ch : Channel) : Channel :=
  {| ch_id := ch_id ch;
     ch_type := ch_type ch;
     ch_name := ch_name ch;
     unread_count := Some (numAdd (match unread_count ch with Some n => n | None => 0 end) 1);
     last_message_at := ev_created_at ev |}.

Definition isType (ev : Event) (t : string) : bool := optStrEq (ev_type ev) (Some t).

(** The argument of [$channels.map]. *)
Definition touch (ev : Event) (ch : Channel) : Channel :=
  if String.eqb (ch_id ch) (ev_channel_id ev) && isType ev "message"
  then bump ev ch else ch.

(** [(!onChannelPage || isFocused) && event?.user?.id !== $user?.id], where
    [isFocused] is [document.visibilityState !== 'visible']. *)
Definition gate (ev : Event) (st : Stores) : bool :=
  let isFocused := negb (visible st) in
  let onChannelPage := includes (pathname st) ("/channels/" ++ ev_channel_id ev) in
  (negb onChannelPage || isFocused) && negb (optStrEq (ev_user_id ev) (userId st)).

(** [$channels.find(ch => ch.id === event.channel_id) &&
     $channelId !== event.channel_id] *)
Definition knownAndNotCurrent (ev : Event) (st : Stores) (chs : list Channel) : bool :=
  existsb (fun ch => String.eqb (ch_id ch) (ev_channel_id ev)) chs
  && negb (optStrEq (channelId st) (Some (ev_channel_id ev))).

(** The toast and the desktop notification of a ['message'] event. *)
Definition announce (ev : Event) (st : Stores) : list Effect :=
  if isType ev "message" then
    let title :=
      template (ev_author_name ev) ++
      (if negb (strictEq (ev_channel_type ev) (JStr "dm"))
       then " (#" ++ template (ev_channel_name ev) ++ ")" else "") in
    (if isLastActiveTab st && notificationEnabled st
     then [Notify (title ++ " • Open WebUI") (ev_content ev)
             (WEBUI_API_BASE_URL st ++ "/users/" ++ template (ev_author_id ev)
                ++ "/profile/image")]
     else [])
    ++ [Toast ("/channels/" ++ ev_channel_id ev) (ev_content ev) title]
  else [].

(** The handler.  [fetch] is what [getChannels] does if it is called; the
    handler calls it at most once. *)
Definition channelEventHandler (fetch : Awaited (option (list Channel)))
  (ev : Event) (st : Stores) : Stores * list Effect :=
  if isType ev "typing" then (st, [])
  else if isType ev "channel:created" then
    (setChannels st (refetch fetch (channels st)), [GetChannels])
  else if gate ev st then
    match channels st with
    | Some chs =>
        if knownAndNotCurrent ev st chs
        then (setChannels st (Some (map (touch ev) chs)), announce ev st)
        else (setChannels st (refetch fetch (channels st)),
              GetChannels :: announce ev st)
    | None => (st, announce ev st)
    end
  else (st, []).

End Channel.

(** ** Session guard: [checkTokenExpiry] *)

Module Session.

(** [$user?.expires_at]: epoch seconds when the session carries one. *)
Inductive Expiry : Type :=
| ExpUndefined
| ExpNull
| ExpAt (seconds : Z).

Record User : Type := {
  user_id : string;
  expires_at : Expiry
}.

Record State : Type := {
  user : option User;          (* the user store *)
  token : option string;       (* localStorage.token *)
  location : string            (* location.href *)
}.

Definition expiryOf (u : option User) : Expiry :=
  match u with
  | Some u => expires_at u
  | None => ExpUndefined
  end.

(** [exp && now >= exp - 60]: a number is truthy unless it is zero. *)
Definition due (exp : Expiry) (now : Z) : bool :=
  match exp with
  | ExpAt e => negb (e =? 0) && (e - 60 <=? now)
  | ExpUndefined | ExpNull => false
  end.

Record Run : Type := {
  after : State;
  signOutCalls : nat;          (* requests sent through userSignOut *)
  completion : Completion
}.

(** [nowMs] is [Date.now()].  [signOut] is what [userSignOut()] does if it
    is called; it resolves to [res?.redirect_url], [None] when that is
    nullish. *)
Definition checkTokenExpiry (nowMs : Z) (signOut : Awaited (option string))
  (st : State) : Run :=
  let exp := expiryOf (user st) in
  let now := nowMs / 1000 in
  if due exp now then
    match signOut with
    | Resolves redirect_url =>
        {| after := {| user := None;
                       token := None;
                       location := match redirect_url with
                                   | Some u => u
                                   | None => "/auth"
                                   end |};
           signOutCalls := 1;
           completion := Fulfilled |}
    | Rejects e =>
        {| after := st; signOutCalls := 1; completion := Rejected e |}
    end
  else {| after := st; signOutCalls := 0; completion := Fulfilled |}.

End Session.

(** ** Tab coordinator: [handleVisibilityChange] and [bc.onmessage] *)

Module Tabs.

Record Tab : Type := {
  isLastActiveTab : bool;         (* the store of this tab *)
  session : Session.State;
  expiryChecks : nat              (* calls of checkTokenExpiry so far *)
}.

(** [handleVisibilityChange]: the new tab state and the messages posted on
    the broadcast channel. [visible] is
    [document.visibilityState === 'visible']. *)
Definition handleVisibilityChange (visible : bool) (nowMs : Z)
  (signOut : Awaited (option string)) (t : Tab) : Tab * list string :=
  if visible then
    ({| isLastActiveTab := true;
        session := Session.after (Session.checkTokenExpiry nowMs signOut (session t));
        expiryChecks := S (expiryChecks t) |},
     ["active"])
  else (t, []).

(** [bc.onmessage] *)
Definition onmessage (data : string) (t : Tab) : Tab :=
  if String.eqb data "active"
  then {| isLastActiveTab := false;
          session := session t;
          expiryChecks := expiryChecks t |}
  else t.

(** The browser around the tabs: every tab of the origin runs this layout
    and listens on ['active-tab-channel'].  A posted message is queued for
    every other tab and delivered later, in any order. *)
Record World : Type := {
  tabs : list Tab;
  inflight : list (nat * string)       (* destination tab, data *)
}.

Inductive Event : Type :=
| VisibilityChange (tab : nat) (visible : bool) (nowMs : Z)
    (signOut : Awaited (option string))
| Deliver (k : nat).                   (* the k-th queued message arrives *)

Fixpoint updTab (i : nat) (f : Tab -> Tab) (ts : list Tab) {struct ts} : list Tab :=
  match ts, i with
  | [], _ => []
  | t :: r, O => f t :: r
  | t :: r, S j => t :: updTab j f r
  end.

Definition removeNth {A : Type} (k : nat) (l : list A) : list A :=
  firstn k l ++ skipn (S k) l.

(** [bc.postMessage(data)] from tab [i]: one copy for each other tab. *)
Definition broadcast (n i : nat) (data : string) : list (nat * string) :=
  map (fun j => (j, data)) (filter (fun j => negb (Nat.eqb j i)) (seq 0 n)).

Definition step (w : World) (e : Event) : World :=
  match e with
  | VisibilityChange i visible nowMs signOut =>
      match nth_error (tabs w) i with
      | Some t =>
          let (t', posted) := handleVisibilityChange visible nowMs signOut t in
          {| tabs := updTab i (fun _ => t') (tabs w);
             inflight := inflight w
                         ++ flat_map (broadcast (List.length (tabs w)) i) posted |}
      | None => w
      end
  | Deliver k =>
      match nth_error (inflight w) k with
      | Some (dest, data) =>
          {| tabs := updTab dest (onmessage data) (tabs w);
             inflight := removeNth k (inflight w) |}
      | None => w
      end
  end.

Definition run (w : World) (evs : list Event) : World := fold_left step evs w.

(** The tab of the last claim of a trace among [n] tabs, if there is one. *)
Fixpoint lastClaim (n : nat) (evs : list Event) (acc : option nat) : option nat :=
  match evs with
  | [] => acc
  | VisibilityChange i true _ _ :: r =>
      lastClaim n r (if Nat.ltb i n then Some i else acc)
  | _ :: r => lastClaim n r acc
  end.

Definition settled (w : World) : Prop := inflight w = [].

Definition flagOf (w : World) (i : nat) : option bool :=
  option_map isLastActiveTab (nth_error (tabs w) i).

End Tabs.

(** ** Sandbox runner: [executePythonAsWorker] *)

Module Sandbox.

(** *** The package list: [/\bimport\s+X\b|\bfrom\s+X\b/.test(code)] *)

Definition between (lo hi : nat) (c : ascii) : bool :=
  (Nat.leb lo (nat_of_ascii c) && Nat.leb (nat_of_ascii c) hi)%bool.

(** [\w] *)
Definition isWordChar (c : ascii) : bool :=
  between 48 57 c || between 65 90 c || between 97 122 c
  || Nat.eqb (nat_of_ascii c) 95.

Fixpoint stripPrefix (p s : string) : option string :=
  match p, s with
  | EmptyString, _ => Some s
  | String a p', String b s' => if Ascii.eqb a b then stripPrefix p' s' else None
  | String _ _, EmptyString => None
  end.

(** The white space of ECMAScript, which [\s] matches and [trim] removes:
    tab, line feed, vertical tab, form feed, carriage return, space,
    U+00A0, U+1680, U+2000 to U+200A, U+2028, U+2029, U+202F, U+205F, U+3000
    and U+FEFF, each as its UTF-8 bytes. *)
Definition whiteSpace : list string :=
  map string_of_list_ascii
    [ ["009"]; ["010"]; ["011"]; ["012"]; ["013"]; ["032"]; ["194"; "160"];
      ["225"; "154"; "128"]; ["226"; "128"; "128"]; ["226"; "128"; "129"];
      ["226"; "128"; "130"]; ["226"; "128"; "131"]; ["226"; "128"; "132"];
      ["226"; "128"; "133"]; ["226"; "128"; "134"]; ["226"; "128"; "135"];
      ["226"; "128"; "136"]; ["226"; "128"; "137"]; ["226"; "128"; "138"];
      ["226"; "128"; "168"]; ["226"; "128"; "169"]; ["226"; "128"; "175"];
      ["226"; "129"; "159"]; ["227"; "128"; "128"];
      ["239"; "187"; "191"] ]%char.

(** What follows the first of the strings [ps] that [s] starts with. *)
Fixpoint stripAny (ps : list string) (s : string) : option string :=
  match ps with
  | [] => None
  | p :: r =>
      match stripPrefix p s with
      | Some t => Some t
      | None => stripAny r s
      end
  end.

(** [\s] at the start of [s]: what follows one white-space character. *)
Definition stripSpace (s : string) : option string := stripAny whiteSpace s.

(** [\s*] at the start of [s], taking all the white space there is.  The
    string gets shorter with every character taken, so its length is
    enough fuel. *)
Fixpoint skipSpacesWithin (fuel : nat) (s : string) : string :=
  match fuel with
  | O => s
  | S n =>
      match stripSpace s with
      | Some r => skipSpacesWithin n r
      | None => s
      end
  end.

Definition skipSpaces (s : string) : string :=
  skipSpacesWithin (String.length s) s.

(** Does [kw\s+name\b] match at the start of [s]?  No module name starts
    with white space, so [\s+] takes all the white space there is. *)
Definition keywordThen (kw name s : string) : bool :=
  match stripPrefix kw s with
  | Some afterKw =>
      match stripSpace afterKw with
      | Some r =>
          match stripPrefix name (skipSpaces r) with
          | Some EmptyString => true
          | Some (String d _) => negb (isWordChar d)
          | None => false
          end
      | None => false
      end
  | None => false
  end.

(** [prevWord]: the character before [s] is a word character, so there is
    no [\b] in front of [s]. *)
Fixpoint importsFrom (prevWord : bool) (name s : string) : bool :=
  (negb prevWord && (keywordThen "import" name s || keywordThen "from" name s))
  || match s with
     | String c r => importsFrom (isWordChar c) name r
     | EmptyString => false
     end.

Definition imports (name code : string) : bool := importsFrom false name code.

(** Module name matched in the code, package requested from the worker. *)
Definition packageTable : list (string * string) :=
  [ ("requests", "requests"); ("bs4", "beautifulsoup4"); ("numpy", "numpy");
    ("pandas", "pandas"); ("matplotlib", "matplotlib"); ("seaborn", "seaborn");
    ("sklearn", "scikit-learn"); ("scipy", "scipy"); ("re", "regex");
    ("sympy", "sympy"); ("tiktoken", "tiktoken"); ("pytz", "pytz") ].

Definition packages (code : string) : list string :=
  map snd (filter (fun row => imports (fst row) code) packageTable).

(** *** The run *)

(** [event.data] of a worker message, without its [id]. *)
Record Data : Type := {
  d_stdout : jsval;
  d_stderr : jsval;
  d_result : jsval
}.

(** The variables the three callbacks close over, the worker, and what has
    been handed to [cb] so far. *)
Record Run : Type := {
  posted : list (string * string * list string);  (* postMessage({id, code, packages}) *)
  stdout : jsval;
  stderr : jsval;
  result : jsval;
  executing : bool;
  workerAlive : bool;               (* false once terminate() was called *)
  calls : list jsval                (* arguments of cb, in order *)
}.

Definition start (id code : string) : Run :=
  {| posted := [(id, code, packages code)];
     stdout := JNull; stderr := JNull; result := JNull;
     executing := true; workerAlive := true; calls := [] |}.

(** [JSON.parse(JSON.stringify({ stdout, stderr, result }, replacer))] *)
Definition report (r : Run) : jsval :=
  jsonValue (JObj [("stdout", stdout r); ("stderr", stderr r); ("result", result r)]).

(** [if (cb) cb(...)] *)
Definition invoke (cb : bool) (r : Run) : Run :=
  {| posted := posted r; stdout := stdout r; stderr := stderr r; result := result r;
     executing := executing r; workerAlive := workerAlive r;
     calls := if cb then calls r ++ [report r] else calls r |}.

Definition stopExecuting (r : Run) : Run :=
  {| posted := posted r; stdout := stdout r; stderr := stderr r; result := result r;
     executing := false; workerAlive := workerAlive r; calls := calls r |}.

(** The callback of [setTimeout(..., 60000)] *)
Definition onTimeout (cb : bool) (r : Run) : Run :=
  if executing r then
    invoke cb
      {| posted := posted r; stdout := stdout r;
         stderr := JStr "Execution Time Limit Exceeded";
         result := result r;
         executing := false;
         workerAlive := false;
         calls := calls r |}
  else r.

(** [pyodideWorker.onmessage] *)
Definition onmessage (cb : bool) (d : Data) (r : Run) : Run :=
  stopExecuting
    (invoke cb
       {| posted := posted r;
          stdout := if truthy (d_stdout d) then d_stdout d else stdout r;
          stderr := if truthy (d_stderr d) then d_stderr d else stderr r;
          result := if truthy (d_result d) then d_result d else result r;
          executing := executing r; workerAlive := workerAlive r;
          calls := calls r |}).

(** [pyodideWorker.onerror] *)
Definition onerror (cb : bool) (r : Run) : Run := stopExecuting (invoke cb r).

(** What the event loop hands to this invocation.  The timer fires once,
    60000 ms after the call; the worker script decides how many message and
    error events there are. *)
Inductive Event : Type :=
| Deadline
| WorkerMessage (d : Data)
| WorkerError.

Definition isWorkerEvent (e : Event) : bool :=
  match e with Deadline => false | _ => true end.

(** A terminated worker delivers nothing: [terminate()] discards what it
    had queued for the page. *)
Definition dispatch (cb : bool) (r : Run) (e : Event) : Run :=
  match e with
  | Deadline => onTimeout cb r
  | WorkerMessage d => if workerAlive r then onmessage cb d r else r
  | WorkerError => if workerAlive r then onerror cb r else r
  end.

Definition executePythonAsWorker (id code : string) (cb : bool)
  (evs : list Event) : Run :=
  fold_left (dispatch cb) evs (start id code).

End Sandbox.

(** ** Tool invoker: [executeTool] *)

Module Tool.

(** An entry of [$settings.toolServers]. *)
Record ToolServer : Type := {
  url : option string;
  auth_type : option string;       (* None: undefined or null *)
  key : jsval
}.

(** An entry of the [toolServers] store. *)
Record ToolServerData : Type := {
  data_url : option string;
  openapi : jsval
}.

(** The payload of an [execute:tool] command. *)
Record Request : Type := {
  server_url : option string;      (* data.server?.url *)
  name : jsval;                    (* data?.name *)
  params : jsval                   (* data?.params *)
}.

(** The arguments of one [executeToolServer] call. *)
Record Call : Type := {
  call_token : jsval;
  call_url : option string;
  call_name : jsval;
  call_params : jsval;
  call_data : option ToolServerData
}.

Record Run : Type := {
  requests : list Call;            (* calls of executeToolServer *)
  calls : list jsval;              (* arguments of cb *)
  completion : Completion
}.

Definition notFound : jsval := JObj [("error", JStr "Tool Server Not Found")].

Definition lookup {A : Type} (urlOf : A -> option string)
  (servers : option (list A)) (wanted : option string) : option A :=
  match servers with
  | Some l => find (fun s => optStrEq (urlOf s) wanted) l
  | None => None
  end.

(** [toolServer?.auth_type ?? 'bearer'], then the two branches that set
    [toolServerToken]; any other mode leaves it null. *)
Definition credential (srv : ToolServer) (localToken : jsval) : jsval :=
  let auth := match auth_type srv with Some a => a | None => "bearer" end in
  if String.eqb auth "bearer" then key srv
  else if String.eqb auth "session" then localToken
  else JNull.

Section Invoke.
Variable executeToolServer : Call -> Awaited jsval.

(** [settingsServers] is [$settings?.toolServers], [storeServers] is
    [$toolServers], [localToken] is [localStorage.token]; [cb] tells whether
    a callback was passed. *)
Definition executeTool (settingsServers : option (list ToolServer))
  (storeServers : option (list ToolServerData)) (localToken : jsval)
  (data : Request) (cb : bool) : Run :=
  let toolServer := lookup url settingsServers (server_url data) in
  let toolServerData := lookup data_url storeServers (server_url data) in
  match toolServer with
  | Some srv =>
      let call := {| call_token := credential srv localToken;
                     call_url := url srv;
                     call_name := name data;
                     call_params := params data;
                     call_data := toolServerData |} in
      match executeToolServer call with
      | Resolves res =>
          if cb then
            match jsonClone res with
            | Some v => {| requests := [call]; calls := [v]; completion := Fulfilled |}
            | None => {| requests := [call]; calls := [];
                         completion := Rejected (JStr "JSON") |}
            end
          else {| requests := [call]; calls := []; completion := Fulfilled |}
      | Rejects e => {| requests := [call]; calls := []; completion := Rejected e |}
      end
  | None =>
      {| requests := [];
         calls := if cb then [notFound] else [];
         completion := Fulfilled |}
  end.
End Invoke.

End Tool.

(** ** Chat events: [chatEventHandler] *)

Module Chat.

Record FormData : Type := {
  fd_model : option string;        (* form_data.model *)
  fd_stream : bool;                (* truthiness of form_data?.stream *)
  fd_rest : jsval
}.

(** [event.data.data] *)
Record Data : Type := {
  done : jsval;
  title : option string;
  content : jsval;
  session_id : option string;
  py_id : string;                  (* data.id *)
  py_code : string;                (* data.code *)
  tool : Tool.Request;             (* server, name, params *)
  channel : jsval;
  form_data : option FormData;
  urlIdx : option nat              (* model?.urlIdx *)
}.

Record Event : Type := {
  chat_id : option string;         (* event.chat_id *)
  ev_type : option string;         (* event?.data?.type ?? null *)
  ev_data : option Data            (* event?.data?.data ?? null *)
}.

(** [$settings.directConnections]; a missing array is [None]. *)
Record DirectConnections : Type := {
  OPENAI_API_BASE_URLS : option (list jsval);
  OPENAI_API_KEYS : option (list jsval);
  OPENAI_API_CONFIGS : option (list (option string))   (* each entry's prefix_id *)
}.

(** The first element of what [chatCompletion] resolves to, when it is not
    null: the response status, what [res.json()] does, and what the read
    loop gets from the body: for each chunk that [reader.read()] yields,
    the text that [decoder.decode(value, { stream: true })] returns for it
    (the decoder of the platform keeps the bytes of an unfinished character
    for its next call), then the end of the stream or a failure. *)
Record Response : Type := {
  ok : bool;
  json : Awaited jsval;
  decoded : list string;
  failure : option jsval
}.

(** Everything the handler reads. *)
Record Env : Type := {
  visible : bool;                        (* document.visibilityState === 'visible' *)
  electron : option (Awaited (option bool));
                                         (* window.electronAPI, and what its
                                            send does: res.isFocused, None
                                            for a falsy res *)
  chatId : option string;
  temporaryChatEnabled : bool;
  notificationSoundAlways : bool;
  notificationEnabled : bool;
  isLastActiveTab : bool;
  directConnections : option DirectConnections;
  socket : option (option string);       (* $socket and its id *)
  token : jsval;                         (* localStorage.token *)
  WEBUI_BASE_URL : string
}.

Inductive Effect : Type :=
| SetPlayingNotificationSound (b : bool)
| PlayAudio (src : string)
| Notify (title : string) (body : jsval) (icon : string)
| Toast (target : string) (content : jsval) (title : option string)
| SetCurrentChatPage (n : Z)
| SetChats (v : jsval)
| SetTags (v : jsval)
| RunPython (id code : string) (cb : bool)
| RunTool (data : option Tool.Request) (cb : bool)
| Ack (v : jsval)                      (* cb(v) *)
| Emit (channel : jsval) (payload : jsval).

(** A piece of handler code: the effects it performs, then its value or the
    error it throws.  Effects performed before a throw stay performed. *)
Definition Step (A : Type) : Type := list Effect * (A + jsval).

Definition ret {A : Type} (a : A) : Step A := ([], inl a).
Definition throw {A : Type} (e : jsval) : Step A := ([], inr e).
Definition perform (e : Effect) : Step unit := ([e], inl tt).

Definition bind {A B : Type} (m : Step A) (k : A -> Step B) : Step B :=
  match m with
  | (l, inl a) => let (l', r) := k a in ((l ++ l')%list, r)
  | (l, inr e) => (l, inr e)
  end.

Notation "x <- m ;; k" := (bind m (fun x => k))
  (at level 61, m at next level, right associativity).
Notation "m ;; k" := (bind m (fun _ => k))
  (at level 61, right associativity).

Definition await {A : Type} (a : Awaited A) : Step A :=
  match a with
  | Resolves x => ret x
  | Rejects e => throw e
  end.

(** [try { body } catch (error) { handler(error) } finally { fin }] *)
Definition tryCatchFinally (body : Step unit) (handler : jsval -> Step unit)
  (fin : Step unit) : Step unit :=
  let caught := match body with
                | (l, inl u) => (l, inl u)
                | (l, inr e) => let (l', r) := handler e in ((l ++ l')%list, r)
                end in
  match caught, fin with
  | (l, r), (lf, inl _) => ((l ++ lf)%list, r)
  | (l, _), (lf, inr e) => ((l ++ lf)%list, inr e)
  end.

Definition typeError : jsval := JStr "TypeError".

(** [cb(v)]; calling a missing callback is a TypeError. *)
Definition ack (cb : bool) (v : jsval) : Step unit :=
  if cb then perform (Ack v) else throw typeError.

(** [$socket?.emit(channel, payload)] *)
Definition emit (env : Env) (ch payload : jsval) : Step unit :=
  match socket env with
  | Some _ => perform (Emit ch payload)
  | None => ret tt
  end.

(** [xs[i]], undefined out of range or for an undefined index *)
Definition at_ {A : Type} (xs : list A) (i : option nat) : option A :=
  match i with
  | Some n => nth_error xs n
  | None => None
  end.

(** [arr[i]] on a property that may be missing: reading an index of
    undefined throws. *)
Definition index {A : Type} (arr : option (list A)) (i : option nat) : Step (option A) :=
  match arr with
  | Some xs => ret (at_ xs i)
  | None => throw typeError
  end.

(** [s.replace(pat, '')] with a string pattern: the first occurrence goes. *)
Fixpoint removeFirst (pat s : string) : string :=
  match Sandbox.stripPrefix pat s with
  | Some r => r
  | None => match s with
            | String c r => String c (removeFirst pat r)
            | EmptyString => EmptyString
            end
  end.

(** [text.split('\n')] *)
Fixpoint splitLines (cur s : string) : list string :=
  match s with
  | EmptyString => [cur]
  | String c r =>
      if Ascii.eqb c "010"%char then cur :: splitLines "" r
      else splitLines (cur ++ String c "") r
  end.

(** [l.trim() !== '']: [trim] leaves nothing exactly when the line is
    white space from end to end. *)
Definition notBlank (l : string) : bool :=
  match Sandbox.skipSpaces l with
  | EmptyString => false
  | String _ _ => true
  end.

(** The lines of one decoded text that are relayed. *)
Definition linesOf (text : string) : list string :=
  filter notBlank (splitLines "" text).

Fixpoint emitAll (env : Env) (ch : jsval) (lines : list string) : Step unit :=
  match lines with
  | [] => ret tt
  | l :: r => emit env ch (JStr l) ;; emitAll env ch r
  end.

(** The [while (true)] loop over [reader.read()]; [texts] are the decoded
    texts of the chunks read. *)
Fixpoint relay (env : Env) (ch : jsval) (texts : list string)
  (failure : option jsval) : Step unit :=
  match texts with
  | [] => match failure with
          | Some e => throw e
          | None => ret tt
          end
  | text :: r => emitAll env ch (linesOf text) ;; relay env ch r failure
  end.

Definition doneMarker : jsval := JObj [("done", JBool true)].

Section Handler.
Variable getChatList : jsval -> Z -> Awaited jsval.
Variable getAllTags : jsval -> Awaited jsval.
Variable chatCompletion : jsval -> option FormData -> jsval -> Awaited (option Response).

(** [let isFocused = document.visibilityState !== 'visible'], overridden by
    the desktop shell when there is one and it answers. *)
Definition focus (env : Env) : Step bool :=
  match electron env with
  | Some send =>
      res <- await send ;;
      ret (match res with
           | Some f => f
           | None => negb (visible env)
           end)
  | None => ret (negb (visible env))
  end.

(** [(event.chat_id !== $chatId && !$temporaryChatEnabled) || isFocused] *)
Definition notify (env : Env) (ev : Event) (isFocused : bool) : bool :=
  (negb (optStrEq (chat_id ev) (chatId env)) && negb (temporaryChatEnabled env))
  || isFocused.

Definition isType (ev : Event) (t : string) : bool := optStrEq (ev_type ev) (Some t).

(** [data?.session_id === $socket?.id] *)
Definition isCommand (env : Env) (ev : Event) : bool :=
  optStrEq (match ev_data ev with Some d => session_id d | None => None end)
           (match socket env with Some id => id | None => None end).

(** The body of the [try] block of a [request:chat:completion] command.
    [$settings?.directConnections ?? {}] is an object, so the [if] around
    the body is always taken. *)
Definition proxy (env : Env) (d : Data) (cb : bool) : Step unit :=
  let dc := match directConnections env with
            | Some dc => dc
            | None => {| OPENAI_API_BASE_URLS := None;
                         OPENAI_API_KEYS := None;
                         OPENAI_API_CONFIGS := None |}
            end in
  OPENAI_API_URL <- index (OPENAI_API_BASE_URLS dc) (urlIdx d) ;;
  OPENAI_API_KEY <- index (OPENAI_API_KEYS dc) (urlIdx d) ;;
  API_CONFIG <- index (OPENAI_API_CONFIGS dc) (urlIdx d) ;;
  let prefix_id := match API_CONFIG with Some p => p | None => None end in
  form <- match prefix_id with
          | Some p =>
              if String.eqb p "" then ret (form_data d)
              else match form_data d with
                   | Some fd =>
                       match fd_model fd with
                       | Some m =>
                           ret (Some {| fd_model := Some (removeFirst (p ++ ".") m);
                                        fd_stream := fd_stream fd;
                                        fd_rest := fd_rest fd |})
                       | None => throw typeError
                       end
                   | None => throw typeError
                   end
          | None => ret (form_data d)
          end ;;
  res <- await (chatCompletion
                  (match OPENAI_API_KEY with Some k => k | None => JUndefined end)
                  form
                  (match OPENAI_API_URL with Some u => u | None => JUndefined end)) ;;
  match res with
  | Some r =>
      if negb (ok r) then
        e <- await (json r) ;; throw e
      else if match form with Some fd => fd_stream fd | None => false end then
        ack cb (JObj [("status", JBool true)]) ;;
        relay env (channel d) (decoded r) (failure r)
      else
        v <- await (json r) ;; ack cb v
  | None => ret tt
  end.

(** The [chat:title] and [chat:tags] branches. *)
Definition refreshChats (env : Env) : Step unit :=
  perform (SetCurrentChatPage 1) ;;
  v <- await (getChatList (token env) 1) ;;
  perform (SetChats v).

Definition refreshTags (env : Env) : Step unit :=
  v <- await (getAllTags (token env)) ;;
  perform (SetTags v).

(** The [chat:completion] branch, entered when [data?.done] is truthy. *)
Definition announce (env : Env) (ev : Event) (d : Data) : Step unit :=
  (if notificationSoundAlways env
   then perform (SetPlayingNotificationSound true) ;;
        perform (PlayAudio "/audio/notification.mp3")
   else ret tt) ;;
  (if isLastActiveTab env && notificationEnabled env
   then perform (Notify (template (title d) ++ " • Open WebUI") (content d)
                   (WEBUI_BASE_URL env ++ "/static/favicon.png"))
   else ret tt) ;;
  perform (Toast ("/c/" ++ template (chat_id ev)) (content d) (title d)).

Definition chatEventHandler (env : Env) (ev : Event) (cb : bool) : Step unit :=
  isFocused <- focus env ;;
  if notify env ev isFocused then
    match ev_data ev with
    | Some d =>
        if isType ev "chat:completion" && truthy (done d) then announce env ev d
        else if isType ev "chat:title" then refreshChats env
        else if isType ev "chat:tags" then refreshTags env
        else ret tt
    | None =>
        if isType ev "chat:title" then refreshChats env
        else if isType ev "chat:tags" then refreshTags env
        else ret tt
    end
  else if isCommand env ev then
    if isType ev "execute:python" then
      match ev_data ev with
      | Some d => perform (RunPython (py_id d) (py_code d) cb)
      | None => throw typeError                   (* data.id of null *)
      end
    else if isType ev "execute:tool" then
      perform (RunTool (option_map tool (ev_data ev)) cb)
    else if isType ev "request:chat:completion" then
      match ev_data ev with
      | Some d =>
          tryCatchFinally (proxy env d cb)
            (fun error => ack cb error)
            (emit env (channel d) doneMarker)
      | None => throw typeError                   (* destructuring of null *)
      end
    else ret tt
  else ret tt.

End Handler.

End Chat.

(** ** Vocabulary of the statements *)

(** A comparator that is the difference of a key, and the order it sorts
    into. *)
Section KeyOrder.
Context {A : Type} (key : A -> Z).

Definition byKey (a b : A) : Z := key a - key b.
Definition keyLe (a b : A) : Prop := key a <= key b.
End KeyOrder.

Section ChannelVocabulary.
Import Channel.

(** Sample channels, stores and events. *)
Definition chan (id : string) (t : jsval) (at_ : Z) : Channel :=
  {| ch_id := id; ch_type := t; ch_name := Some id;
     unread_count := Some 0; last_message_at := JNum at_ |}.

(** User [me] looks at a chat page in a visible tab; the list holds
    channel [c1] with two unread messages. *)
Definition stores0 : Stores :=
  {| channels := Some [chan "c0" (JStr "") 10; {| ch_id := "c1"; ch_type := JStr "group";
                                                  ch_name := Some "general";
                                                  unread_count := Some 2;
                                                  last_message_at := JNum 100 |}];
     channelId := None;
     userId := Some "me";
     pathname := "/c/42";
     visible := true;
     isLastActiveTab := true;
     notificationEnabled := false;
     WEBUI_API_BASE_URL := "/api/v1" |}.

(** An event of the given type on channel [c1], written by somebody else. *)
Definition eventOn (type : string) : Event :=
  {| ev_type := Some type;
     ev_channel_id := "c1";
     ev_user_id := Some "you";
     ev_created_at := JNum 200;
     ev_channel_type := JStr "group";
     ev_channel_name := Some "general";
     ev_author_name := Some "You";
     ev_author_id := Some "you";
     ev_content := JStr "hi" |}.

End ChannelVocabulary.

Section SandboxVocabulary.
Import Sandbox.

(** How many message and error events of the worker a schedule holds. *)
Definition workerEvents (evs : list Event) : nat :=
  List.length (filter isWorkerEvent evs).

(** What the callback gets when the deadline comes first. *)
Definition timeLimitReport : jsval :=
  JObj [("stdout", JNull); ("stderr", JStr "Execution Time Limit Exceeded");
        ("result", JNull)].

(** What the callback gets for a message of the worker that comes first:
    the truthy fields of the message, null for the others. *)
Definition messageReport (d : Data) : jsval :=
  jsonValue
    (JObj [("stdout", if truthy (d_stdout d) then d_stdout d else JNull);
           ("stderr", if truthy (d_stderr d) then d_stderr d else JNull);
           ("result", if truthy (d_result d) then d_result d else JNull)]).

(** What the callback gets for an error event that comes first. *)
Definition errorReport : jsval :=
  JObj [("stdout", JNull); ("stderr", JNull); ("result", JNull)].

(** A worker result with a 64-bit integer in it. *)
Definition printed : Data :=
  {| d_stdout := JStr "1"; d_stderr := JUndefined; d_result := JBigInt 9007199254740993 |}.

End SandboxVocabulary.

(** A tool server that answers with the credential it was called with. *)
Definition echoServer (c : Tool.Call) : Awaited jsval :=
  Resolves (JObj [("token", Tool.call_token c); ("skipped", JUndefined)]).

Definition configured : list Tool.ToolServer :=
  [ {| Tool.url := Some "https://a.example"; Tool.auth_type := Some "session";
       Tool.key := JStr "key-a" |};
    {| Tool.url := Some "https://b.example"; Tool.auth_type := None;
       Tool.key := JStr "key-b" |};
    {| Tool.url := Some "https://c.example"; Tool.auth_type := Some "none";
       Tool.key := JStr "key-c" |} ].

Definition toolRequest (u : string) : Tool.Request :=
  {| Tool.server_url := Some u; Tool.name := JStr "search";
     Tool.params := JObj [("q", JStr "rocq")] |}.

Section SessionVocabulary.
Import Session.

(** The state after a completed sign-out. *)
Definition signedOut (redirect_url : option string) : State :=
  {| user := None; token := None;
     location := match redirect_url with Some u => u | None => "/auth" end |}.

(** The session carries an expiry, and the time is within 60 seconds of
    it or past it. *)
Definition expiring (st : State) (now : Z) : Prop :=
  exists e, expiryOf (user st) = ExpAt e /\ e <> 0 /\ now >= e - 60.

Definition sessionWith (exp : Expiry) : State :=
  {| user := Some {| user_id := "u1"; expires_at := exp |};
     token := Some "jwt";
     location := "/c/42" |}.

End SessionVocabulary.

Section TabsVocabulary.
Import Tabs.

(** Once somebody has claimed: a tab that still holds the flag and is not
    the last claimer has an 'active' message on its way. *)
Definition pending (last : option nat) (w : World) : Prop :=
  match last with
  | None => True
  | Some k =>
      forall i t, nth_error (tabs w) i = Some t -> isLastActiveTab t = true ->
                  i <> k -> In (i, "active") (inflight w)
  end.

End TabsVocabulary.

(** Two tabs as a fresh page load leaves them, and a claim by tab [i]. *)
Definition freshTab : Tabs.Tab :=
  {| Tabs.isLastActiveTab := true;
     Tabs.session := sessionWith (Session.ExpAt 2000000);
     Tabs.expiryChecks := 0 |}.

Definition twoTabs : Tabs.World :=
  {| Tabs.tabs := [freshTab; freshTab]; Tabs.inflight := [] |}.

Definition claim (i : nat) : Tabs.Event :=
  Tabs.VisibilityChange i true 1000000999 (Resolves None).

(** Chat ["open"] is on screen in a visible tab, the socket is connected as
    ["sock-1"], one direct connection with prefix ["lab"] is configured. *)
Definition envOpen : Chat.Env :=
  {| Chat.visible := true;
     Chat.electron := None;
     Chat.chatId := Some "open";
     Chat.temporaryChatEnabled := false;
     Chat.notificationSoundAlways := false;
     Chat.notificationEnabled := false;
     Chat.isLastActiveTab := true;
     Chat.directConnections :=
       Some {| Chat.OPENAI_API_BASE_URLS := Some [JStr "https://llm.example/v1"];
               Chat.OPENAI_API_KEYS := Some [JStr "sk-1"];
               Chat.OPENAI_API_CONFIGS := Some [Some "lab"] |};
     Chat.socket := Some (Some "sock-1");
     Chat.token := JStr "jwt";
     Chat.WEBUI_BASE_URL := "" |}.


Definition commandData : Chat.Data :=
  {| Chat.done := JUndefined;
     Chat.title := None;
     Chat.content := JUndefined;
     Chat.session_id := Some "sock-1";
     Chat.py_id := "";
     Chat.py_code := "";
     Chat.tool := {| Tool.server_url := None; Tool.name := JUndefined;
                     Tool.params := JUndefined |};
     Chat.channel := JStr "chan-1";
     Chat.form_data := Some {| Chat.fd_model := Some "lab.gpt"; Chat.fd_stream := true;
                               Chat.fd_rest := JNull |};
     Chat.urlIdx := Some 0%nat |}.

Definition chatEvent (chat : string) (type : string) : Chat.Event :=
  {| Chat.chat_id := Some chat;
     Chat.ev_type := Some type;
     Chat.ev_data := Some commandData |}.

(** A backend whose stream breaks after two chunks. *)
Definition brokenStream (key : jsval) (form : option Chat.FormData) (url : jsval)
  : Awaited (option Chat.Response) :=
  Resolves (Some {| Chat.ok := true;
                    Chat.json := Resolves JNull;
                    Chat.decoded := ["data: a" ++ String "010"%char "" ++ "data: b"
                                      ++ String "010"%char "";
                                    "   " ++ String "010"%char "data: c"];
                    Chat.failure := Some (JStr "network error") |}).

(** API wrappers that fail. *)
Definition failingList (tok : jsval) (page : Z) : Awaited jsval :=
  Rejects (JStr "Failed to fetch").

Definition failingTags (tok : jsval) : Awaited jsval :=
  Rejects (JStr "Failed to fetch").

Section ReportVocabulary.
Import Sandbox.

(** The three variables of a run are never undefined: they start as null
    and only take truthy values. *)
Definition defined3 (r : Run) : Prop :=
  stdout r <> JUndefined /\ stderr r <> JUndefined /\ result r <> JUndefined.

Definition plainReport (v : jsval) : Prop :=
  (exists a b c, v = JObj [("stdout", a); ("stderr", b); ("result", c)]) /\
  hasBigInt v = false /\ jsonClone v = Some v.

End ReportVocabulary.

(** A settings state in which everything that can make noise is on, and a
    finished completion of another chat. *)
Definition loudEnv : Chat.Env :=
  {| Chat.visible := true;
     Chat.electron := None;
     Chat.chatId := Some "open";
     Chat.temporaryChatEnabled := false;
     Chat.notificationSoundAlways := true;
     Chat.notificationEnabled := true;
     Chat.isLastActiveTab := true;
     Chat.directConnections := None;
     Chat.socket := Some (Some "sock-1");
     Chat.token := JStr "jwt";
     Chat.WEBUI_BASE_URL := "" |}.

Definition finishedEvent : Chat.Event :=
  {| Chat.chat_id := Some "other";
     Chat.ev_type := Some "chat:completion";
     Chat.ev_data :=
       Some {| Chat.done := JBool true; Chat.title := Some "Plan";
               Chat.content := JStr "ready"; Chat.session_id := None;
               Chat.py_id := ""; Chat.py_code := "";
               Chat.tool := Chat.tool commandData;
               Chat.channel := JNull; Chat.form_data := None;
               Chat.urlIdx := None |} |}.

Section ChatVocabulary.
Import Chat.

(** Which effects are a notification of the user, and which belong to the
    execution of a command. *)
Definition isNotification (x : Effect) : Prop :=
  match x with
  | SetPlayingNotificationSound _ | PlayAudio _ | Notify _ _ _ | Toast _ _ _ => True
  | _ => False
  end.

Definition isCommandEffect (x : Effect) : Prop :=
  match x with
  | RunPython _ _ _ | RunTool _ _ | Ack _ | Emit _ _ => True
  | _ => False
  end.




(** The same command with another model name in its form. *)
Definition withModel (d : Data) (m : string) : Data :=
  {| done := done d; title := title d; content := content d;
     session_id := session_id d; py_id := py_id d; py_code := py_code d;
     tool := tool d; channel := channel d;
     form_data := option_map (fun fd => {| fd_model := Some m;
                                           fd_stream := fd_stream fd;
                                           fd_rest := fd_rest fd |})
                    (form_data d);
     urlIdx := urlIdx d |}.

(** The same environment with other connection configs. *)
Definition withConfigs (env : Env) (cfgs : list (option string)) : Env :=
  {| visible := visible env; electron := electron env; chatId := chatId env;
     temporaryChatEnabled := temporaryChatEnabled env;
     notificationSoundAlways := notificationSoundAlways env;
     notificationEnabled := notificationEnabled env;
     isLastActiveTab := isLastActiveTab env;
     directConnections :=
       option_map (fun dc => {| OPENAI_API_BASE_URLS := OPENAI_API_BASE_URLS dc;
                                OPENAI_API_KEYS := OPENAI_API_KEYS dc;
                                OPENAI_API_CONFIGS := Some cfgs |})
         (directConnections env);
     socket := socket env; token := token env;
     WEBUI_BASE_URL := WEBUI_BASE_URL env |}.

End ChatVocabulary.

Section ChannelRunVocabulary.
Import Channel.

(** The stores after a series of channel events, each handled in turn. *)
Definition handleAll (fetch : Awaited (option (list Channel)))
  (evs : list Event) (st : Stores) : Stores :=
  fold_left (fun s e => fst (channelEventHandler fetch e s)) evs st.

(** [ch.unread_count ?? 0] *)
Definition unread (c : Channel) : Z :=
  match unread_count c with Some k => k | None => 0 end.

(** The title of the toast and of the notification of a 'message' event. *)
Definition messageTitle (ev : Event) : string :=
  template (ev_author_name ev) ++
  (if strictEq (ev_channel_type ev) (JStr "dm") then ""
   else " (#" ++ template (ev_channel_name ev) ++ ")").

End ChannelRunVocabulary.

(** The stores of [stores0] with desktop notifications on. *)
Definition noisyStores : Channel.Stores :=
  {| Channel.channels := Channel.channels stores0;
     Channel.channelId := None;
     Channel.userId := Some "me";
     Channel.pathname := "/c/42";
     Channel.visible := true;
     Channel.isLastActiveTab := true;
     Channel.notificationEnabled := true;
     Channel.WEBUI_API_BASE_URL := "/api/v1" |}.

Section PackageVocabulary.
Import Sandbox.

(** A run of white-space characters. *)
Inductive spaces : string -> Prop :=
| spaces_nil : spaces ""
| spaces_cons (w ws : string) :
    In w whiteSpace -> spaces ws -> spaces (w ++ ws).

(** [l] is [t] with some of its elements left out, the others in the
    order of [t]. *)
Inductive subsequence {A : Type} : list A -> list A -> Prop :=
| subsequence_nil : subsequence [] []
| subsequence_skip (x : A) (l t : list A) :
    subsequence l t -> subsequence l (x :: t)
| subsequence_keep (x : A) (l t : list A) :
    subsequence l t -> subsequence (x :: l) (x :: t).

(** The first character of a module name is a word character. *)
Definition startsWord (name : string) : Prop :=
  match name with
  | EmptyString => False
  | String c _ => isWordChar c = true
  end.

(** Is the last character of [pre] a word character ([b] for an empty
    [pre])?  There is a word boundary behind [pre], in front of a letter,
    exactly when it is not. *)
Fixpoint endsInWord (b : bool) (pre : string) : bool :=
  match pre with
  | EmptyString => b
  | String c r => endsInWord (isWordChar c) r
  end.

(** Is there a word boundary in front of [rest], behind a letter? *)
Definition boundaryBefore (rest : string) : bool :=
  match rest with
  | EmptyString => true
  | String c _ => negb (isWordChar c)
  end.

(** The code holds [import name] or [from name] as the pattern
    [\bimport\s+name\b|\bfrom\s+name\b] reads it. *)
Definition mentions (name code : string) : Prop :=
  exists pre kw ws rest,
    code = pre ++ kw ++ ws ++ name ++ rest /\
    (kw = "import" \/ kw = "from") /\
    ws <> "" /\ spaces ws /\
    endsInWord false pre = false /\ boundaryBefore rest = true.

End PackageVocabulary.

Section TabRunVocabulary.
Import Tabs.

(** An event that is no claim: a delivery, or a change to hidden. *)
Definition noClaim (e : Event) : Prop :=
  match e with
  | VisibilityChange _ true _ _ => False
  | _ => True
  end.

End TabRunVocabulary.

(** ** The realtime connection: [setupSocket] *)

Module Socket.

(** What [getVersion] resolves to, read as the handler reads it:
    [res?.deployment_id ?? null] and [res?.version ?? null]. *)
Record VersionInfo : Type := {
  deployment_id : option string;
  version : option string
}.

(** The socket, the two stores, the interval handle of the layout, the
    intervals of the page, and the connect handlers that wait for
    [getVersion].  Interval handles are the positive integers that
    [setInterval] returns. *)
Record State : Type := {
  connected : bool;                     (* _socket.connected *)
  WEBUI_VERSION : option string;
  WEBUI_DEPLOYMENT_ID : option string;
  heartbeatInterval : option nat;
  timers : list nat;                    (* live intervals *)
  nextTimer : nat;                      (* the handle setInterval returns next *)
  token : option string;                (* localStorage.token *)
  awaiting : nat;
  reloaded : bool                       (* location.reload() was called *)
}.

Inductive Effect : Type :=
| Emit (event : string) (payload : jsval)
| UnregisterServiceWorkers
| Reload.

Inductive Event : Type :=
| Connect                                        (* 'connect' *)
| Version (res : Awaited (option VersionInfo))   (* getVersion settles *)
| Disconnect                                     (* 'disconnect' *)
| Tick (timer : nat)                             (* an interval fires *)
| ConnectError.                                  (* 'connect_error' *)

Definition isSome {A : Type} (o : option A) : bool :=
  match o with Some _ => true | None => false end.

(** The two nested conditions in front of the reload. *)
Definition needsReload (st : State) (info : option VersionInfo) : bool :=
  let deploymentId := match info with Some i => deployment_id i | None => None end in
  let version := match info with Some i => version i | None => None end in
  (isSome version || isSome deploymentId) &&
  ((isSome (WEBUI_VERSION st) && negb (optStrEq version (WEBUI_VERSION st)))
   || (isSome (WEBUI_DEPLOYMENT_ID st)
       && negb (optStrEq deploymentId (WEBUI_DEPLOYMENT_ID st)))).

(** [localStorage.getItem('token')] is truthy. *)
Definition hasToken (st : State) : bool :=
  match token st with
  | Some s => negb (String.eqb s "")
  | None => false
  end.

(** The rest of the connect handler, once [getVersion] has settled. *)
Definition onVersion (res : Awaited (option VersionInfo)) (st : State)
  : State * list Effect :=
  match res with
  | Rejects _ =>
      ({| connected := connected st; WEBUI_VERSION := WEBUI_VERSION st;
          WEBUI_DEPLOYMENT_ID := WEBUI_DEPLOYMENT_ID st;
          heartbeatInterval := heartbeatInterval st; timers := timers st;
          nextTimer := nextTimer st; token := token st;
          awaiting := pred (awaiting st); reloaded := reloaded st |}, [])
  | Resolves info =>
      if needsReload st info then
        ({| connected := connected st; WEBUI_VERSION := WEBUI_VERSION st;
            WEBUI_DEPLOYMENT_ID := WEBUI_DEPLOYMENT_ID st;
            heartbeatInterval := heartbeatInterval st; timers := timers st;
            nextTimer := nextTimer st; token := token st;
            awaiting := pred (awaiting st); reloaded := true |},
         [UnregisterServiceWorkers; Reload])
      else
        ({| connected := connected st;
            WEBUI_VERSION :=
              match info with
              | Some {| version := Some v |} => Some v
              | _ => WEBUI_VERSION st
              end;
            WEBUI_DEPLOYMENT_ID :=
              match info with
              | Some {| deployment_id := Some d |} => Some d
              | _ => WEBUI_DEPLOYMENT_ID st
              end;
            heartbeatInterval := Some (nextTimer st);
            timers := nextTimer st :: timers st;
            nextTimer := S (nextTimer st);
            token := token st;
            awaiting := pred (awaiting st);
            reloaded := false |},
         if hasToken st
         then [Emit "user-join"
                 (JObj [("auth",
                         JObj [("token",
                                match token st with
                                | Some s => JStr s
                                | None => JUndefined
                                end)])])]
         else [])
  end.

(** The 'disconnect' listener: [if (heartbeatInterval) { clearInterval(...);
    heartbeatInterval = null }]. *)
Definition onDisconnect (st : State) : State :=
  match heartbeatInterval st with
  | Some (S h) =>
      {| connected := false; WEBUI_VERSION := WEBUI_VERSION st;
         WEBUI_DEPLOYMENT_ID := WEBUI_DEPLOYMENT_ID st;
         heartbeatInterval := None;
         timers := filter (fun t => negb (Nat.eqb t (S h))) (timers st);
         nextTimer := nextTimer st; token := token st;
         awaiting := awaiting st; reloaded := reloaded st |}
  | _ =>
      {| connected := false; WEBUI_VERSION := WEBUI_VERSION st;
         WEBUI_DEPLOYMENT_ID := WEBUI_DEPLOYMENT_ID st;
         heartbeatInterval := heartbeatInterval st; timers := timers st;
         nextTimer := nextTimer st; token := token st;
         awaiting := awaiting st; reloaded := reloaded st |}
  end.

(** One turn of the event loop.  After the reload the page is gone. *)
Definition step (st : State) (e : Event) : State * list Effect :=
  if reloaded st then (st, [])
  else
    match e with
    | Connect =>
        ({| connected := true; WEBUI_VERSION := WEBUI_VERSION st;
            WEBUI_DEPLOYMENT_ID := WEBUI_DEPLOYMENT_ID st;
            heartbeatInterval := heartbeatInterval st; timers := timers st;
            nextTimer := nextTimer st; token := token st;
            awaiting := S (awaiting st); reloaded := false |}, [])
    | Version res =>
        match awaiting st with
        | O => (st, [])
        | S _ => onVersion res st
        end
    | Disconnect => (onDisconnect st, [])
    | Tick t =>
        (st, if existsb (Nat.eqb t) (timers st) && connected st
             then [Emit "heartbeat" (JObj [])] else [])
    | ConnectError => (st, [])
    end.

Fixpoint run (st : State) (evs : list Event) : State * list Effect :=
  match evs with
  | [] => (st, [])
  | e :: r =>
      let (st1, out1) := step st e in
      let (st2, out2) := run st1 r in
      (st2, (out1 ++ out2)%list)
  end.

(** A page that has just called [setupSocket]. *)
Definition fresh (tok : option string) : State :=
  {| connected := false; WEBUI_VERSION := None; WEBUI_DEPLOYMENT_ID := None;
     heartbeatInterval := None; timers := []; nextTimer := 1; token := tok;
     awaiting := 0; reloaded := false |}.

(** The options handed to [io]. *)
Definition transports (enableWebsocket : bool) : list string :=
  if enableWebsocket then ["websocket"] else ["polling"; "websocket"].

End Socket.

Section SocketVocabulary.
Import Socket.

(** Where a connection stands, and the traces in which the three listeners
    take turns: a connect, then the answer of [getVersion], then a
    disconnect, with ticks and connect errors anywhere. *)
Inductive Phase : Type := Idle | Waiting | Up.

Fixpoint orderly (p : Phase) (evs : list Event) : Prop :=
  match evs with
  | [] => True
  | e :: r =>
      match e, p with
      | Tick _, _ | ConnectError, _ => orderly p r
      | Connect, Idle => orderly Waiting r
      | Version _, Waiting => orderly Up r
      | Disconnect, Up => orderly Idle r
      | _, _ => False
      end
  end.

Fixpoint phaseAfter (p : Phase) (evs : list Event) : Phase :=
  match evs with
  | [] => p
  | e :: r =>
      match e, p with
      | Connect, Idle => phaseAfter Waiting r
      | Version _, Waiting => phaseAfter Up r
      | Disconnect, Up => phaseAfter Idle r
      | _, _ => phaseAfter p r
      end
  end.

(** Every answer of [getVersion] in the trace is [info], or a failure. *)
Fixpoint steady (info : option VersionInfo) (evs : list Event) : Prop :=
  match evs with
  | [] => True
  | Version (Resolves i) :: r => i = info /\ steady info r
  | _ :: r => steady info r
  end.

(** The timers of the page are the one the handle names, if any. *)
Definition tidy (st : State) : Prop :=
  timers st = match heartbeatInterval st with Some t => [t] | None => [] end
  /\ (forall t, heartbeatInterval st = Some t -> t <> 0%nat)
  /\ nextTimer st <> 0%nat.

Definition inPhase (p : Phase) (st : State) : Prop :=
  tidy st /\
  (reloaded st = true /\ heartbeatInterval st = None
   \/ reloaded st = false /\
      match p with
      | Idle => heartbeatInterval st = None /\ awaiting st = 0%nat
      | Waiting => heartbeatInterval st = None /\ awaiting st = 1%nat
      | Up => awaiting st = 0%nat
      end).

End SocketVocabulary.

(** An answer of the version endpoint. *)
Definition sameVersion : Socket.VersionInfo :=
  {| Socket.deployment_id := Some "prod-7"; Socket.version := Some "0.6.1" |}.

(** ** Service workers and navigation: [unregisterServiceWorkers],
       [beforeNavigate] *)

Module Navigation.

(** A registration of a service worker: how its [unregister()] settles
    (it resolves to a boolean, false when the registration was not found,
    or it rejects), and when, as the place of the promise in the order of
    settlement. *)
Record Registration : Type := {
  unregister : Awaited bool;
  settlesAt : nat
}.

(** [navigator.serviceWorker]: what [getRegistrations()] does. *)
Record ServiceWorkers : Type := {
  registrations : Awaited (list Registration)
}.

Record Run : Type := {
  result : bool;                  (* what the function resolves to *)
  unregisterCalls : nat;          (* calls of r.unregister() *)
  logged : option jsval           (* the argument of console.error *)
}.

(** [Promise.all] rejects as soon as one of its promises rejects, with the
    reason of that one: the rejection that settles first, given with its
    time. *)
Fixpoint firstRejection (rs : list Registration) : option (nat * jsval) :=
  match rs with
  | [] => None
  | r :: rest =>
      match unregister r, firstRejection rest with
      | Rejects e, Some (t, e') =>
          if Nat.leb (settlesAt r) t then Some (settlesAt r, e) else Some (t, e')
      | Rejects e, None => Some (settlesAt r, e)
      | Resolves _, later => later
      end
  end.

(** [sw] is [None] when ['serviceWorker' in navigator] is false. *)
Definition unregisterServiceWorkers (sw : option ServiceWorkers) : Run :=
  match sw with
  | Some w =>
      match registrations w with
      | Resolves rs =>
          match firstRejection rs with
          | None => {| result := true; unregisterCalls := List.length rs;
                       logged := None |}
          | Some (_, e) => {| result := false; unregisterCalls := List.length rs;
                              logged := Some e |}
          end
      | Rejects e => {| result := false; unregisterCalls := 0; logged := Some e |}
      end
  | None => {| result := false; unregisterCalls := 0; logged := None |}
  end.

(** The [beforeNavigate] hook: [updated] is [updated.current], [to] is
    [to?.url] with its href.  It gives the new [location.href] and the run
    of [unregisterServiceWorkers], if it was called. *)
Definition beforeNavigate (updated : bool) (sw : option ServiceWorkers)
  (willUnload : bool) (to : option string) (location : string)
  : string * option Run :=
  if updated && negb willUnload then
    match to with
    | Some href => (href, Some (unregisterServiceWorkers sw))
    | None => (location, None)
    end
  else (location, None).

End Navigation.

(** ** The user subscription of [onMount] *)

Module Subscription.

Record State : Type := {
  hasSocket : bool;               (* $socket is set *)
  listeners : nat;                (* registrations of chatEventHandler on 'events' *)
  settings : jsval;               (* the settings store *)
  tokenTimer : option nat;
  timers : list nat;              (* live intervals of checkTokenExpiry *)
  nextTimer : nat;
  waiting : nat                   (* callbacks that wait for getUserSettings *)
}.

Inductive Event : Type :=
| UserChanged (value : bool)      (* the user store is set; truthiness of the value *)
| SettingsArrived (res : Awaited (option jsval)) (stored : Awaited jsval).
    (* getUserSettings settles: [userSettings.ui] when it is truthy;
       and what JSON.parse(localStorage.getItem('settings') ?? '{}') does *)

Inductive Effect : Type :=
| GetUserSettings
| SetTextScale (scale : jsval).

(** [o?.[k]] on an object *)
Definition getProp (k : string) (o : jsval) : jsval :=
  match o with
  | JObj fs =>
      match find (fun kv => String.eqb (fst kv) k) fs with
      | Some kv => snd kv
      | None => JUndefined
      end
  | _ => JUndefined
  end.

(** [if (tokenTimer) clearInterval(tokenTimer)] *)
Definition cleared (st : State) : list nat :=
  match tokenTimer st with
  | Some (S h) => filter (fun t => negb (Nat.eqb t (S h))) (timers st)
  | _ => timers st
  end.

Definition step (st : State) (e : Event) : State * list Effect :=
  match e with
  | UserChanged true =>
      ({| hasSocket := hasSocket st;
          listeners := if hasSocket st then S (pred (listeners st)) else listeners st;
          settings := settings st; tokenTimer := tokenTimer st;
          timers := timers st; nextTimer := nextTimer st;
          waiting := S (waiting st) |},
       [GetUserSettings])
  | UserChanged false => (st, [])
  | SettingsArrived res stored =>
      match waiting st with
      | O => (st, [])
      | S w =>
          let aborted :=
            ({| hasSocket := hasSocket st; listeners := listeners st;
                settings := settings st; tokenTimer := tokenTimer st;
                timers := timers st; nextTimer := nextTimer st;
                waiting := w |}, []) in
          let continue (ui : jsval) :=
            ({| hasSocket := hasSocket st; listeners := listeners st;
                settings := ui;
                tokenTimer := Some (nextTimer st);
                timers := nextTimer st :: cleared st;
                nextTimer := S (nextTimer st);
                waiting := w |},
             [SetTextScale (coalesce (getProp "textScale" ui) (JNum 1))]) in
          match res with
          | Rejects _ => aborted
          | Resolves (Some ui) => continue ui
          | Resolves None =>
              match stored with
              | Resolves v => continue v
              | Rejects _ => aborted
              end
          end
      end
  end.

Definition run (st : State) (evs : list Event) : State :=
  fold_left (fun s e => fst (step s e)) evs st.

(** The page before the first user. *)
Definition fresh (socket : bool) : State :=
  {| hasSocket := socket; listeners := 0; settings := JUndefined;
     tokenTimer := None; timers := []; nextTimer := 1; waiting := 0 |}.

End Subscription.

(** ** The start of the page: [onMount] *)

Module Mount.

Record Config : Type := {
  name : string;
  enable_websocket : option bool      (* features?.enable_websocket *)
}.

Inductive Effect : Type :=
| SetTheme (t : string)
| SetMobile (narrow : bool)
| InitI18n (locale : option string)
| SetConfig (c : Config)
| SetName (n : string)
| SetupSocket (enableWebsocket : bool)
| SetUser (u : jsval)
| RemoveToken
| Goto (url : string)
| RemoveSplash
| SetLoaded.




Section Boot.
Variable encodeURIComponent : string -> string.


End Boot.

(** The [theme] attribute of the toaster. [prefersDark] is
    [window.matchMedia('(prefers-color-scheme: dark)').matches]. *)
Definition toasterTheme (theme : string) (prefersDark : bool) : string :=
  if includes theme "dark" then "dark"
  else if String.eqb theme "system" then (if prefersDark then "dark" else "light")
  else "light".

End Mount.

Section SubscriptionVocabulary.
Import Subscription.

(** The expiry timers of the page are the one the handle names, if any. *)
Definition oneTimer (st : State) : Prop :=
  timers st = match tokenTimer st with Some t => [t] | None => [] end
  /\ (forall t, tokenTimer st = Some t -> t <> 0%nat)
  /\ nextTimer st <> 0%nat.

End SubscriptionVocabulary.

Section MountVocabulary.
Import Mount.



End MountVocabulary.

(* ================================================================== *)
(** * Part II: properties *)
(* ================================================================== *)

(** ** Sorting by a key *)

(** Both sort calls compare two channels by the difference of a key.  The
    facts about [sort] are proved once for such comparators. *)
Section KeySort.
Context {A : Type} (key : A -> Z).

Lemma insertSorted_perm (x : A) (l : list A) :
  Permutation (insertSorted (byKey key) x l) (x :: l).
Proof.
  induction l as [|y r IH]; simpl.
  - apply Permutation_refl.
  - destruct (byKey key x y <=? 0).
    + apply Permutation_refl.
    + eapply perm_trans; [apply perm_skip, IH | apply perm_swap].
Qed.

Lemma sort_perm (l : list A) : Permutation (sort (byKey key) l) l.
Proof.
  induction l as [|x r IH]; simpl.
  - constructor.
  - eapply perm_trans; [apply insertSorted_perm | apply perm_skip, IH].
Qed.

Lemma insertSorted_sorted (x : A) (l : list A) :
  StronglySorted (keyLe key) l -> StronglySorted (keyLe key) (insertSorted (byKey key) x l).
Proof.
  induction 1 as [|y r Hr IH Hy]; simpl.
  - repeat constructor.
  - destruct (Z.leb_spec (byKey key x y) 0) as [Hle|Hgt]; unfold byKey in *.
    + constructor.
      * now constructor.
      * constructor; [unfold keyLe; lia|].
        eapply Forall_impl; [|exact Hy].
        unfold keyLe; intros z Hz; lia.
    + constructor; [exact IH|].
      eapply Permutation_Forall; [apply Permutation_sym, insertSorted_perm|].
      constructor; [unfold keyLe; lia | exact Hy].
Qed.

Lemma sort_sorted (l : list A) : StronglySorted (keyLe key) (sort (byKey key) l).
Proof.
  induction l as [|x r IH]; simpl.
  - constructor.
  - now apply insertSorted_sorted.
Qed.

(** Stability: the elements of one key keep their input order. *)
Lemma insertSorted_filter (k : Z) (x : A) (l : list A) :
  filter (fun a => key a =? k) (insertSorted (byKey key) x l)
  = filter (fun a => key a =? k) (x :: l).
Proof.
  induction l as [|y r IH]; simpl.
  - reflexivity.
  - destruct (Z.leb_spec (byKey key x y) 0) as [Hle|Hgt]; unfold byKey in *.
    + reflexivity.
    + simpl in *. rewrite IH.
      destruct (Z.eqb_spec (key x) k), (Z.eqb_spec (key y) k);
        try reflexivity; lia.
Qed.

Lemma sort_filter (k : Z) (l : list A) :
  filter (fun a => key a =? k) (sort (byKey key) l) = filter (fun a => key a =? k) l.
Proof.
  induction l as [|x r IH]; simpl.
  - reflexivity.
  - rewrite insertSorted_filter. simpl. now rewrite IH.
Qed.

(** The arrangement depends on the keys only: rewriting the elements in a
    way that keeps every key commutes with sorting. *)
Lemma insertSorted_map (f : A -> A) (x : A) (l : list A) :
  (forall a, key (f a) = key a) ->
  insertSorted (byKey key) (f x) (map f l) = map f (insertSorted (byKey key) x l).
Proof.
  intros Hf. induction l as [|y r IH]; simpl.
  - reflexivity.
  - unfold byKey at 1 3. rewrite !Hf.
    destruct (key x - key y <=? 0); simpl; [reflexivity | now rewrite IH].
Qed.

Lemma sort_map (f : A -> A) (l : list A) :
  (forall a, key (f a) = key a) ->
  sort (byKey key) (map f l) = map f (sort (byKey key) l).
Proof.
  intros Hf. induction l as [|x r IH]; simpl.
  - reflexivity.
  - rewrite IH. now apply insertSorted_map.
Qed.

(** In a sorted list a smaller key stands at a smaller index. *)
Lemma sorted_index_le (l : list A) :
  StronglySorted (keyLe key) l ->
  forall i j a b, (i < j)%nat ->
    nth_error l i = Some a -> nth_error l j = Some b -> key a <= key b.
Proof.
  induction 1 as [|y r Hr IH Hy]; intros i j a b Hij Ha Hb.
  - destruct i; discriminate.
  - destruct j as [|j]; [lia|]. simpl in Hb.
    destruct i as [|i]; simpl in Ha.
    + injection Ha as <-.
      rewrite Forall_forall in Hy. apply Hy. eapply nth_error_In; eauto.
    + apply (IH i j a b); [lia | assumption | assumption].
Qed.

Lemma sorted_index_lt (l : list A) (i j : nat) (a b : A) :
  StronglySorted (keyLe key) l ->
  nth_error l i = Some a -> nth_error l j = Some b ->
  key a < key b -> (i < j)%nat.
Proof.
  intros Hs Ha Hb Hlt.
  destruct (Nat.lt_trichotomy i j) as [H|[H|H]]; [exact H| |].
  - subst. rewrite Ha in Hb. injection Hb as <-. lia.
  - pose proof (sorted_index_le l Hs j i b a H Hb Ha). lia.
Qed.

End KeySort.

(** ** Re-fetches of the channel list *)

Section ChannelRefetch.
Import Channel.

Lemma setChannels_same (st : Stores) : setChannels st (channels st) = st.
Proof. now destruct st. Qed.

Lemma announce_no_fetch (ev : Event) (st : Stores) : ~ In GetChannels (announce ev st).
Proof.
  unfold announce. destruct (isType ev "message"); [|intros []].
  destruct (_ && _); simpl; intros H;
    repeat (destruct H as [H|H]; [discriminate H|]); exact H.
Qed.

(** A handler that fetched has stored what [refetch] makes of the fetch,
    and changed no other store. *)
Lemma handler_fetch_result
  (fetch : Awaited (option (list Channel))) (ev : Event) (st : Stores) :
  In GetChannels (snd (channelEventHandler fetch ev st)) ->
  fst (channelEventHandler fetch ev st)
  = setChannels st (refetch fetch (channels st)).
Proof.
  unfold channelEventHandler.
  destruct (isType ev "typing"); [intros []|].
  destruct (isType ev "channel:created"); [reflexivity|].
  destruct (gate ev st); [|intros []].
  destruct (channels st) as [chs|] eqn:Ec.
  - destruct (knownAndNotCurrent ev st chs); [|reflexivity].
    simpl. intros Hin. now apply announce_no_fetch in Hin.
  - simpl. intros Hin. now apply announce_no_fetch in Hin.
Qed.

(** Both re-fetches of [channelEventHandler] catch the failure of
    [getChannels]: when the fetch rejects, or resolves to null, a handler
    that fetched leaves every store as it was, and the handler itself has
    no way to fail. *)
Lemma channel_refetch_failure_is_swallowed
  (fetch : Awaited (option (list Channel))) (ev : Event) (st : Stores) :
  (forall res, fetch <> Resolves (Some res)) ->
  In GetChannels (snd (channelEventHandler fetch ev st)) ->
  fst (channelEventHandler fetch ev st) = st.
Proof.
  intros Hfail Hin. rewrite (handler_fetch_result fetch ev st Hin).
  assert (Hre : refetch fetch (channels st) = channels st).
  { destruct fetch as [[res|]|e]; try reflexivity. now destruct (Hfail res). }
  rewrite Hre. apply setChannels_same.
Qed.

End ChannelRefetch.

(** ** The channel list order *)

Section ChannelOrder.
Import Channel.

Lemma strictEq_eq (a b : jsval) : strictEq a b = true -> a = b.
Proof.
  destruct a, b; simpl; try discriminate; try reflexivity; intros H.
  - now apply Bool.eqb_prop in H; subst.
  - now apply Z.eqb_eq in H; subst.
  - now apply Z.eqb_eq in H; subst.
  - now apply String.eqb_eq in H; subst.
Qed.

Lemma strictEq_str (s : string) : strictEq (JStr s) (JStr s) = true.
Proof. simpl. apply String.eqb_refl. Qed.

Lemma sortChannels_byKey (res : list Channel) :
  sortChannels res = sort (byKey priority) res.
Proof. reflexivity. Qed.

(** The index of a listed type is its position; any other type has -1. *)
Lemma priority_spec (c : Channel) :
  (ch_type c = JStr "" /\ priority c = 0) \/
  (ch_type c = JNull /\ priority c = 1) \/
  (ch_type c = JStr "group" /\ priority c = 2) \/
  (ch_type c = JStr "dm" /\ priority c = 3) \/
  (~ In (ch_type c) typeOrder /\ priority c = -1).
Proof.
  unfold priority, indexOf, typeOrder. cbn [indexOfFrom].
  destruct (strictEq (JStr "") (ch_type c)) eqn:E0.
  { left. split; [symmetry; now apply strictEq_eq | reflexivity]. }
  destruct (strictEq JNull (ch_type c)) eqn:E1.
  { right; left. split; [symmetry; now apply strictEq_eq | reflexivity]. }
  destruct (strictEq (JStr "group") (ch_type c)) eqn:E2.
  { right; right; left. split; [symmetry; now apply strictEq_eq | reflexivity]. }
  destruct (strictEq (JStr "dm") (ch_type c)) eqn:E3.
  { right; right; right; left.
    split; [symmetry; now apply strictEq_eq | reflexivity]. }
  right; right; right; right. split; [|reflexivity].
  intros [H|[H|[H|[H|[]]]]]; rewrite <- H in *; simpl in *; discriminate.
Qed.

Lemma priority_listed (c : Channel) :
  In (ch_type c) typeOrder -> 0 <= priority c <= 3.
Proof.
  intros Hin.
  destruct (priority_spec c) as [[_ H]|[[_ H]|[[_ H]|[[_ H]|[Hn _]]]]];
    try lia.
  contradiction.
Qed.

Lemma priority_unlisted (c : Channel) :
  ~ In (ch_type c) typeOrder -> priority c = -1.
Proof.
  intros Hn.
  destruct (priority_spec c) as [[H _]|[[H _]|[[H _]|[[H _]|[_ H]]]]];
    try exact H; exfalso; apply Hn; rewrite H; simpl; tauto.
Qed.

(** C3.  A handler that fetched the channels and got a list has stored
    [sortChannels] of it, at either of the two call sites, and that list is
    the fetched one rearranged by type alone: it is a
    permutation of what was fetched, ascending in the index of the type in
    ['', null, 'group', 'dm'], with the channels of one index in their
    fetch order; rewriting any other field of the channels does not move
    them; and a 'dm' channel never stands before a 'group' channel. *)
Theorem channels_sorted_by_type_priority :
  forall (res : list Channel),
    (forall ev st,
        In GetChannels (snd (channelEventHandler (Resolves (Some res)) ev st)) ->
        channels (fst (channelEventHandler (Resolves (Some res)) ev st))
        = Some (sortChannels res)) /\
    Permutation (sortChannels res) res /\
    StronglySorted (fun a b => priority a <= priority b) (sortChannels res) /\
    (forall p, filter (fun c => priority c =? p) (sortChannels res)
               = filter (fun c => priority c =? p) res) /\
    (forall f, (forall c, ch_type (f c) = ch_type c) ->
               sortChannels (map f res) = map f (sortChannels res)) /\
    (forall i j d g,
        nth_error (sortChannels res) i = Some d ->
        nth_error (sortChannels res) j = Some g ->
        ch_type d = JStr "dm" -> ch_type g = JStr "group" -> (j < i)%nat).
Proof.
  intros res. split.
  { intros ev st Hin. now rewrite (handler_fetch_result _ ev st Hin). }
  rewrite !sortChannels_byKey.
  split; [apply sort_perm|].
  split; [apply (sort_sorted priority)|].
  split; [intros p; apply sort_filter|].
  split.
  - intros f Hf. rewrite sortChannels_byKey. apply sort_map.
    intros c. unfold priority. now rewrite Hf.
  - intros i j d g Hd Hg Td Tg.
    apply (sorted_index_lt priority _ j i g d (sort_sorted priority res) Hg Hd).
    unfold priority. rewrite Td, Tg. reflexivity.
Qed.

(** C10.  A channel whose type is not in the list has index -1 and stands
    in front of every channel whose type is in the list. *)
Theorem unlisted_type_sorts_first :
  forall (res : list Channel) (i j : nat) (u k : Channel),
    nth_error (sortChannels res) i = Some u ->
    nth_error (sortChannels res) j = Some k ->
    ~ In (ch_type u) typeOrder ->
    In (ch_type k) typeOrder ->
    priority u = -1 /\ 0 <= priority k /\ (i < j)%nat.
Proof.
  intros res i j u k Hu Hk Hun Hin.
  pose proof (priority_unlisted u Hun) as Pu.
  pose proof (priority_listed k Hin) as Pk.
  split; [exact Pu|]. split; [lia|].
  rewrite sortChannels_byKey in Hu, Hk.
  apply (sorted_index_lt priority _ i j u k (sort_sorted priority res) Hu Hk).
  lia.
Qed.

Example sortChannels_example :
  map ch_id (sortChannels [chan "d1" (JStr "dm") 900; chan "n1" JNull 5;
                           chan "x" (JStr "voice") 1; chan "g1" (JStr "group") 7;
                           chan "e1" (JStr "") 3; chan "d2" (JStr "dm") 2;
                           chan "u" JUndefined 4; chan "g2" (JStr "group") 1])
  = ["x"; "u"; "e1"; "n1"; "g1"; "g2"; "d1"; "d2"].
Proof. reflexivity. Qed.

Lemma unlisted_type_sorts_first_witness :
  priority (chan "x" (JStr "voice") 1) = -1 /\
  0 <= priority (chan "e1" (JStr "") 3) /\ (0 < 1)%nat.
Proof.
  apply (unlisted_type_sorts_first
           [chan "d1" (JStr "dm") 900; chan "e1" (JStr "") 3;
            chan "x" (JStr "voice") 1]
           0 1 (chan "x" (JStr "voice") 1) (chan "e1" (JStr "") 3)).
  - reflexivity.
  - reflexivity.
  - simpl. intros [H|[H|[H|[H|[]]]]]; discriminate H.
  - simpl. left. reflexivity.
Defined.

End ChannelOrder.

(** ** Channel events *)

(** Up to 2^53 the sum of two numbers is their sum. *)
Lemma toDouble_exact (n : Z) :
  - 9007199254740992 <= n <= 9007199254740992 -> toDouble n = n.
Proof.
  intros Hn. unfold toDouble, ulp.
  destruct (Z.ltb_spec (Z.abs n) 9007199254740992) as [Hlt|Hge].
  - rewrite Z.mod_1_r, Z.div_1_r. cbn [Z.mul Z.ltb Z.compare]. lia.
  - assert (E : n = 9007199254740992 \/ n = - 9007199254740992) by lia.
    destruct E as [-> | ->]; vm_compute; reflexivity.
Qed.

(** From 2^53 on, adding one to a count no longer counts: the sum is half
    way between two doubles, or nearer to the count itself. *)
Example numAdd_beyond_2_53 :
  numAdd 9007199254740991 1 = 9007199254740992 /\
  numAdd 9007199254740992 1 = 9007199254740992 /\
  numAdd 9007199254740994 1 = 9007199254740996 /\
  numAdd 18014398509481984 1 = 18014398509481984.
Proof. vm_compute. repeat split. Qed.

Section ChannelEvents.
Import Channel.

Lemma optStrEq_true (a b : option string) : optStrEq a b = true <-> a = b.
Proof.
  destruct a as [x|], b as [y|]; simpl; split; intros H;
    try discriminate; try reflexivity.
  - apply String.eqb_eq in H. now subst.
  - injection H as ->. apply String.eqb_refl.
Qed.

Lemma optStrEq_false (a b : option string) : optStrEq a b = false <-> a <> b.
Proof.
  rewrite <- optStrEq_true. destruct (optStrEq a b); split; intros H;
    try discriminate; try reflexivity; try (exfalso; now apply H).
Qed.

(** The gate in words: not on the page of the channel or the tab hidden,
    and the author is somebody else. *)
Lemma gate_spec (ev : Event) (st : Stores) :
  gate ev st = true <->
  (includes (pathname st) ("/channels/" ++ ev_channel_id ev) = false
   \/ visible st = false)
  /\ ev_user_id ev <> userId st.
Proof.
  unfold gate. rewrite andb_true_iff, orb_true_iff, !negb_true_iff.
  now rewrite optStrEq_false.
Qed.

Lemma knownAndNotCurrent_spec (ev : Event) (st : Stores) (chs : list Channel) :
  knownAndNotCurrent ev st chs = true <->
  (exists c, In c chs /\ ch_id c = ev_channel_id ev)
  /\ channelId st <> Some (ev_channel_id ev).
Proof.
  unfold knownAndNotCurrent.
  rewrite andb_true_iff, negb_true_iff, optStrEq_false, existsb_exists.
  split; intros [[c [Hin Hc]] Hn]; (split; [exists c; split; [exact Hin|] | exact Hn]).
  - now apply String.eqb_eq.
  - now apply String.eqb_eq.
Qed.

Lemma touch_id (ev : Event) (c : Channel) : ch_id (touch ev c) = ch_id c.
Proof. unfold touch. now destruct (_ && _). Qed.

Lemma touch_other_type (ev : Event) (chs : list Channel) :
  isType ev "message" = false -> map (touch ev) chs = chs.
Proof.
  intros Hm. induction chs as [|c r IH]; simpl; [reflexivity|].
  rewrite IH. unfold touch. rewrite Hm, andb_false_r. reflexivity.
Qed.

(** C4, as stated, fails twice.  An event of another type than 'message'
    on a channel of the list leaves the list as it is, with no increment.
    And when the channel is the one of the [channelId] store (the tab being
    hidden, so that the gate is passed), a 'message' event re-fetches the
    list instead of counting the message, though the channel is in it. *)
Lemma channel_event_without_increment :
  (gate (eventOn "message:update") stores0 = true /\
   (exists c, In c [chan "c0" (JStr "") 10;
                    {| ch_id := "c1"; ch_type := JStr "group";
                       ch_name := Some "general"; unread_count := Some 2;
                       last_message_at := JNum 100 |}]
              /\ ch_id c = "c1") /\
   channels (fst (channelEventHandler (Rejects JNull) (eventOn "message:update") stores0))
   = channels stores0)
  /\
  (let hidden := {| channels := channels stores0; channelId := Some "c1";
                    userId := Some "me"; pathname := "/channels/c1";
                    visible := false; isLastActiveTab := false;
                    notificationEnabled := false;
                    WEBUI_API_BASE_URL := "/api/v1" |} in
   gate (eventOn "message") hidden = true /\
   channelEventHandler (Resolves (Some [chan "c1" (JStr "group") 100]))
     (eventOn "message") hidden
   = (setChannels hidden (Some [chan "c1" (JStr "group") 100]),
      [GetChannels; Toast "/channels/c1" (JStr "hi") "You (#general)"])).
Proof.
  split.
  - split; [reflexivity|]. split; [|reflexivity].
    eexists. split; [right; left; reflexivity | reflexivity].
  - split; reflexivity.
Qed.

(** C4, amended.  For an event that is neither 'typing' nor
    'channel:created', passes the gate and finds a channel list: when the
    channel is in the list and is not the one of the [channelId] store, the
    list is replaced by a copy of the same length and order in which, for a
    'message' event, the channels of that id have one added to their
    unread count (missing counts as 0), which increases it by one as long
    as it is below 2^53, and their last-message time set to the event's,
    every other channel and every other field being kept, and which for
    any other type equals the list; no fetch is made.
    Otherwise the list is fetched again, and replaced by the sorted result
    when the fetch brings one. *)
Theorem channel_event_updates_known_channel :
  forall (fetch : Awaited (option (list Channel))) (ev : Event) (st : Stores)
         (chs : list Channel),
    ev_type ev <> Some "typing" ->
    ev_type ev <> Some "channel:created" ->
    (includes (pathname st) ("/channels/" ++ ev_channel_id ev) = false
     \/ visible st = false) ->
    ev_user_id ev <> userId st ->
    channels st = Some chs ->
    let out := channelEventHandler fetch ev st in
    ((exists c, In c chs /\ ch_id c = ev_channel_id ev) /\
     channelId st <> Some (ev_channel_id ev) ->
       exists chs',
         channels (fst out) = Some chs' /\
         ~ In GetChannels (snd out) /\
         map ch_id chs' = map ch_id chs /\
         (ev_type ev <> Some "message" -> chs' = chs) /\
         (forall n c, nth_error chs n = Some c ->
            exists c', nth_error chs' n = Some c' /\
              (ch_id c <> ev_channel_id ev -> c' = c) /\
              (ch_id c = ev_channel_id ev -> ev_type ev = Some "message" ->
                 unread_count c' = Some (numAdd (unread c) 1)
                 /\ (- 9007199254740992 <= unread c < 9007199254740992 ->
                     unread_count c' = Some (unread c + 1))
                 /\ last_message_at c' = ev_created_at ev
                 /\ ch_type c' = ch_type c /\ ch_name c' = ch_name c)))
    /\
    (~ ((exists c, In c chs /\ ch_id c = ev_channel_id ev) /\
        channelId st <> Some (ev_channel_id ev)) ->
       In GetChannels (snd out) /\
       channels (fst out)
       = match fetch with
         | Resolves (Some res) => Some (sortChannels res)
         | _ => Some chs
         end).
Proof.
  intros fetch ev st chs Hty Hcr Hpage Hauthor Hchs out.
  assert (Ht : isType ev "typing" = false).
  { unfold isType. now apply optStrEq_false. }
  assert (Hc : isType ev "channel:created" = false).
  { unfold isType. now apply optStrEq_false. }
  assert (Hg : gate ev st = true) by (apply gate_spec; split; assumption).
  subst out. unfold channelEventHandler. rewrite Ht, Hc, Hg, Hchs.
  split.
  - intros Hk. apply knownAndNotCurrent_spec in Hk. rewrite Hk. simpl.
    exists (map (touch ev) chs).
    split; [reflexivity|].
    split.
    { unfold announce. destruct (isType ev "message"); simpl; [|tauto].
      destruct (_ && _); simpl; intros H;
        repeat (destruct H as [H|H]; [discriminate H|]); exact H. }
    split.
    { rewrite map_map. apply map_ext. intros c. apply touch_id. }
    split.
    { intros Hm. apply touch_other_type. unfold isType. now apply optStrEq_false. }
    intros n c Hn. exists (touch ev c).
    split; [now apply map_nth_error|].
    split.
    + intros Hid. unfold touch.
      destruct (String.eqb_spec (ch_id c) (ev_channel_id ev)); [contradiction|].
      reflexivity.
    + intros Hid Hm. unfold touch, isType.
      rewrite Hid, String.eqb_refl, Hm. simpl.
      split; [reflexivity|]. split; [|repeat split].
      intros Hb. unfold numAdd. fold (unread c). rewrite toDouble_exact by lia.
      reflexivity.
  - intros Hk.
    destruct (knownAndNotCurrent ev st chs) eqn:E.
    { exfalso. apply Hk. now apply knownAndNotCurrent_spec. }
    simpl. split; [now left|].
    destruct fetch as [[res|]|e]; reflexivity.
Qed.

Lemma channel_event_updates_known_channel_witness :
  let out := channelEventHandler (Rejects JNull) (eventOn "message") stores0 in
  exists chs',
    channels (fst out) = Some chs' /\
    nth_error chs' 1 = Some {| ch_id := "c1"; ch_type := JStr "group";
                               ch_name := Some "general";
                               unread_count := Some 3;
                               last_message_at := JNum 200 |}.
Proof.
  destruct (channel_event_updates_known_channel (Rejects JNull) (eventOn "message")
              stores0
              [chan "c0" (JStr "") 10;
               {| ch_id := "c1"; ch_type := JStr "group"; ch_name := Some "general";
                  unread_count := Some 2; last_message_at := JNum 100 |}])
    as [Hknown _].
  - discriminate.
  - discriminate.
  - left. reflexivity.
  - discriminate.
  - reflexivity.
  - destruct Hknown as [chs' [Hset _]].
    + split; [|discriminate].
      eexists. split; [right; left; reflexivity | reflexivity].
    + exists chs'. split; [exact Hset|].
      simpl in Hset. injection Hset as <-. reflexivity.
Defined.

End ChannelEvents.

(** ** Chat events *)

Section ChatEvents.
Import Chat.
Variable getChatList : jsval -> Z -> Awaited jsval.
Variable getAllTags : jsval -> Awaited jsval.
Variable chatCompletion :
  jsval -> option FormData -> jsval -> Awaited (option Response).

(** Where the effects of a sequence come from. *)
Lemma bind_effects {A B : Type} (m : Step A) (k : A -> Step B) (x : Effect) :
  In x (fst (bind m k)) ->
  In x (fst m) \/ exists a, snd m = inl a /\ In x (fst (k a)).
Proof.
  destruct m as [l [a|e]]; simpl.
  - destruct (k a) as [l' r] eqn:E. simpl. rewrite in_app_iff.
    intros [H|H]; [now left|]. right. exists a. rewrite E. now split.
  - now left.
Qed.

Lemma index_effects {A : Type} (arr : option (list A)) (i : option nat) :
  fst (index arr i) = [].
Proof. now destruct arr. Qed.

Lemma await_effects {A : Type} (a : Awaited A) : fst (await a) = [].
Proof. now destruct a. Qed.

Lemma ack_effects (cb : bool) (v : jsval) (x : Effect) :
  In x (fst (ack cb v)) -> x = Ack v.
Proof. destruct cb; simpl; [intros [H|[]]; now subst | intros []]. Qed.

Lemma emit_effects (env : Env) (ch payload : jsval) (x : Effect) :
  In x (fst (emit env ch payload)) -> x = Emit ch payload.
Proof.
  unfold emit. destruct (socket env); simpl; [intros [H|[]]; now subst | intros []].
Qed.

Lemma emitAll_effects (env : Env) (ch : jsval) (lines : list string) (x : Effect) :
  In x (fst (emitAll env ch lines)) -> exists l, x = Emit ch (JStr l).
Proof.
  induction lines as [|l r IH]; simpl; [intros []|].
  intros H. apply bind_effects in H. destruct H as [H|[_ [_ H]]].
  - exists l. now apply emit_effects in H.
  - now apply IH.
Qed.

Lemma relay_effects (env : Env) (ch : jsval) (cs : list string)
  (failure : option jsval) (x : Effect) :
  In x (fst (relay env ch cs failure)) -> exists l, x = Emit ch (JStr l).
Proof.
  induction cs as [|c r IH]; simpl.
  - destruct failure; intros [].
  - intros H. apply bind_effects in H. destruct H as [H|[_ [_ H]]].
    + now apply emitAll_effects in H.
    + now apply IH.
Qed.


(** A reader that fails after some chunks has relayed the lines of those
    chunks, and the failure is thrown. *)
Lemma relay_then_failure (env : Env) (ch : jsval) (cs : list string) (e : jsval) :
  socket env <> None ->
  relay env ch cs (Some e)
  = (map (fun l => Emit ch (JStr l)) (flat_map linesOf cs), inr e).
Proof.
  intros Hs.
  assert (Hall : forall ls, emitAll env ch ls
                            = (map (fun l => Emit ch (JStr l)) ls, inl tt)).
  { induction ls as [|l r IH]; simpl; [reflexivity|].
    rewrite IH. unfold emit. destruct (socket env); [reflexivity | contradiction]. }
  induction cs as [|c r IH]; simpl; [reflexivity|].
  rewrite Hall, IH. simpl. now rewrite map_app.
Qed.


(** C5, on the chat side.  The two re-fetches of [chatEventHandler] await
    the collaborator with no handler for its failure: when [getChatList]
    rejects on a 'chat:title' event the error escapes the handler (after
    the page was already reset to 1), and when [getAllTags] rejects on a
    'chat:tags' event the error escapes as well.  Nothing resolves to
    null, and a collaborator that itself resolves to null has that null
    written into the cache. *)
Theorem chat_refetch_failure_escapes :
  forall (env : Env) (ev : Event) (cb : bool) (isFocused : bool) (e : jsval),
    focus env = ret isFocused ->
    notify env ev isFocused = true ->
    (ev_type ev = Some "chat:title" ->
       (getChatList (token env) 1 = Rejects e ->
          chatEventHandler getChatList getAllTags chatCompletion env ev cb
          = ([SetCurrentChatPage 1], inr e)) /\
       (getChatList (token env) 1 = Resolves JNull ->
          chatEventHandler getChatList getAllTags chatCompletion env ev cb
          = ([SetCurrentChatPage 1; SetChats JNull], inl tt)))
    /\
    (ev_type ev = Some "chat:tags" ->
       (getAllTags (token env) = Rejects e ->
          chatEventHandler getChatList getAllTags chatCompletion env ev cb
          = ([], inr e)) /\
       (getAllTags (token env) = Resolves JNull ->
          chatEventHandler getChatList getAllTags chatCompletion env ev cb
          = ([SetTags JNull], inl tt))).
Proof.
  intros env ev cb isFocused e Hfocus Hgate.
  split; intros Htype; split; intros Hfail;
    unfold chatEventHandler; rewrite Hfocus; unfold ret at 1, bind at 1;
    rewrite Hgate; unfold isType; rewrite Htype;
    destruct (ev_data ev); simpl;
    unfold refreshChats, refreshTags; rewrite Hfail; reflexivity.
Qed.

End ChatEvents.


(** A line that holds nothing but a no-break space and an em space is
    blank, and is not relayed. *)
Example blank_lines :
  Chat.notBlank (String "194" (String "160" (String "226" (String "128"
                   (String "131" " "))))) = false /\
  Chat.notBlank "" = false /\
  Chat.notBlank (" x" ++ String "194" (String "160" "")) = true.
Proof. vm_compute. repeat split. Qed.

Example broken_stream_run :
  Chat.chatEventHandler failingList failingTags brokenStream envOpen
    (chatEvent "open" "request:chat:completion") true
  = ([Chat.Ack (JObj [("status", JBool true)]);
      Chat.Emit (JStr "chan-1") (JStr "data: a");
      Chat.Emit (JStr "chan-1") (JStr "data: b");
      Chat.Emit (JStr "chan-1") (JStr "data: c");
      Chat.Ack (JStr "network error");
      Chat.Emit (JStr "chan-1") Chat.doneMarker], inl tt).
Proof. reflexivity. Qed.


Lemma chat_refetch_failure_escapes_witness :
  Chat.chatEventHandler failingList failingTags brokenStream envOpen
    (chatEvent "other" "chat:title") true
  = ([Chat.SetCurrentChatPage 1], inr (JStr "Failed to fetch"))
  /\
  Chat.chatEventHandler failingList failingTags brokenStream envOpen
    (chatEvent "other" "chat:tags") true
  = ([], inr (JStr "Failed to fetch")).
Proof.
  split.
  - apply (chat_refetch_failure_escapes failingList failingTags brokenStream
             envOpen (chatEvent "other" "chat:title") true false
             (JStr "Failed to fetch"));
      reflexivity.
  - apply (chat_refetch_failure_escapes failingList failingTags brokenStream
             envOpen (chatEvent "other" "chat:tags") true false
             (JStr "Failed to fetch"));
      reflexivity.
Defined.

(** ** The sandbox runner *)

Section SandboxRuns.
Import Sandbox.

Example packages_numpy :
  packages ("import numpy as np" ++ String "010"%char "from  re import match")
  = ["numpy"; "regex"].
Proof. reflexivity. Qed.

(** [\s] is any white space of the language: a no-break space (U+00A0)
    and an em space (U+2003) separate the keyword from the module. *)
Example packages_unicode_space :
  packages ("import" ++ String "194" (String "160" "numpy") ++ String "010"%char
            ("from" ++ String "226" (String "128" (String "131" "re"))
             ++ " import match"))
  = ["numpy"; "regex"].
Proof. vm_compute. reflexivity. Qed.

Example packages_need_word_boundaries :
  packages "import numpyx; reimport pandas; from scipyimport x" = [].
Proof. reflexivity. Qed.

(** After the deadline has fired nothing moves any more. *)
Lemma terminated_run_is_final (cb : bool) (evs : list Event) (r : Run) :
  executing r = false -> workerAlive r = false ->
  fold_left (dispatch cb) evs r = r.
Proof.
  intros He Ha. induction evs as [|e evs IH]; simpl; [reflexivity|].
  destruct e; simpl; unfold onTimeout; rewrite ?He, ?Ha; exact IH.
Qed.

(** After a worker event the deadline is void, and every further worker
    event is reported. *)
Lemma finished_run_calls (evs : list Event) :
  forall r : Run,
    executing r = false -> workerAlive r = true ->
    List.length (calls (fold_left (dispatch true) evs r))
    = (List.length (calls r) + workerEvents evs)%nat.
Proof.
  induction evs as [|e evs IH]; intros r He Ha; simpl.
  - unfold workerEvents. simpl. lia.
  - destruct e; simpl.
    + unfold onTimeout. rewrite He. now apply IH.
    + rewrite Ha, IH by (simpl; auto). simpl.
      rewrite length_app. unfold workerEvents. simpl. lia.
    + rewrite Ha, IH by (simpl; auto). simpl.
      rewrite length_app. unfold workerEvents. simpl. lia.
Qed.

(** How often [cb] is called, for any schedule: once when the deadline
    comes first, else once for every worker event. *)
Lemma sandbox_calls_count (id code : string) (evs : list Event) :
  List.length (calls (executePythonAsWorker id code true evs))
  = match evs with
    | [] => 0%nat
    | Deadline :: _ => 1%nat
    | _ :: rest => S (workerEvents rest)
    end.
Proof.
  unfold executePythonAsWorker. destruct evs as [|e evs]; [reflexivity|].
  destruct e; simpl.
  - now rewrite terminated_run_is_final.
  - now rewrite finished_run_calls.
  - now rewrite finished_run_calls.
Qed.

Example completed_run :
  calls (executePythonAsWorker "r1" "print(1)" true [WorkerMessage printed; Deadline])
  = [JObj [("stdout", JStr "1"); ("stderr", JNull);
           ("result", JStr "9007199254740993")]].
Proof. reflexivity. Qed.

(** The message handler itself does not look at [executing]: run after the
    timer callback it reports again.  Only the termination of the worker
    keeps a late result from the callback. *)
Example onmessage_has_no_guard :
  calls (onmessage true printed (onTimeout true (start "r1" "print(1)")))
  = [timeLimitReport;
     JObj [("stdout", JStr "1"); ("stderr", JStr "Execution Time Limit Exceeded");
           ("result", JStr "9007199254740993")]].
Proof. reflexivity. Qed.

(** C1, as stated, fails: a worker that posts its result and then raises
    an error event (or posts twice) has the callback called for each, and
    the deadline that fires afterwards changes nothing. *)
Lemma sandbox_callback_fires_twice :
  In Deadline [WorkerMessage printed; WorkerError; Deadline] /\
  List.length (calls (executePythonAsWorker "r1" "print(1)" true
                        [WorkerMessage printed; WorkerError; Deadline]))
  = 2%nat.
Proof. split; [simpl; tauto | reflexivity]. Qed.

(** Once [executing] is off, the deadline changes nothing. *)
Lemma deadlines_are_void (cb : bool) (evs : list Event) (r : Run) :
  executing r = false -> workerEvents evs = 0%nat ->
  fold_left (dispatch cb) evs r = r.
Proof.
  intros He. induction evs as [|e evs IH]; intros Hw; [reflexivity|].
  destruct e; unfold workerEvents in Hw; simpl in Hw; try discriminate Hw.
  simpl. unfold onTimeout. rewrite He. now apply IH.
Qed.

(** C1, amended.  When the worker delivers at most one message or error
    event, the callback has been called exactly once when the deadline has
    passed, in whatever order that event and the deadline come.  A
    deadline that comes first reports "Execution Time Limit Exceeded" and
    terminates the worker, and nothing that follows changes the run: a
    late result is dropped.  A worker event that comes first is reported
    with what it carries, the worker is left alive, and the deadline that
    follows changes nothing. *)
Theorem sandbox_callback_fires_once :
  forall (id code : string) (evs : list Event),
    In Deadline evs ->
    (workerEvents evs <= 1)%nat ->
    let run := executePythonAsWorker id code true evs in
    (exists v, calls run = [v]) /\
    executing run = false /\
    (forall rest, evs = Deadline :: rest ->
       run = onTimeout true (start id code) /\
       calls run = [timeLimitReport] /\ workerAlive run = false) /\
    (forall d rest, evs = WorkerMessage d :: rest ->
       run = onmessage true d (start id code) /\
       calls run = [messageReport d] /\ workerAlive run = true) /\
    (forall rest, evs = WorkerError :: rest ->
       run = onerror true (start id code) /\
       calls run = [errorReport] /\ workerAlive run = true).
Proof.
  intros id code evs Hd Hw run. subst run. unfold executePythonAsWorker.
  destruct evs as [|e rest]; [destruct Hd|].
  destruct e; simpl fold_left.
  - rewrite terminated_run_is_final by reflexivity.
    split; [now exists timeLimitReport|]. split; [reflexivity|].
    split; [intros rest' _; repeat split|].
    split; [intros d rest' E; discriminate E | intros rest' E; discriminate E].
  - unfold workerEvents in Hw. simpl in Hw.
    rewrite deadlines_are_void by (try reflexivity; unfold workerEvents; lia).
    split; [now exists (messageReport d)|]. split; [reflexivity|].
    split; [intros rest' E; discriminate E|].
    split; [|intros rest' E; discriminate E].
    intros d' rest' [= <- _]. repeat split.
  - unfold workerEvents in Hw. simpl in Hw.
    rewrite deadlines_are_void by (try reflexivity; unfold workerEvents; lia).
    split; [now exists errorReport|]. split; [reflexivity|].
    split; [intros rest' E; discriminate E|].
    split; [intros d rest' E; discriminate E|].
    intros rest' _. repeat split.
Qed.

Lemma sandbox_callback_fires_once_witness :
  calls (executePythonAsWorker "r1" "while True: pass" true
           [Deadline; WorkerMessage printed]) = [timeLimitReport] /\
  workerAlive (executePythonAsWorker "r1" "while True: pass" true
                 [Deadline; WorkerMessage printed]) = false /\
  calls (executePythonAsWorker "r1" "print(1)" true
           [WorkerMessage printed; Deadline]) = [messageReport printed].
Proof.
  destruct (sandbox_callback_fires_once "r1" "while True: pass"
              [Deadline; WorkerMessage printed])
    as [_ [_ [Hfirst _]]].
  - simpl. left. reflexivity.
  - unfold workerEvents. simpl. lia.
  - destruct (sandbox_callback_fires_once "r1" "print(1)"
                [WorkerMessage printed; Deadline])
      as [_ [_ [_ [Hlate _]]]].
    + simpl. right. left. reflexivity.
    + unfold workerEvents. simpl. lia.
    + destruct (Hfirst _ eq_refl) as [_ [Hc Ha]].
      destruct (Hlate _ _ eq_refl) as [_ [Hm _]].
      split; [exact Hc|]. split; [exact Ha | exact Hm].
Defined.

End SandboxRuns.

(** ** The tool invoker *)

Section ToolCalls.
Import Tool.
Variable executeToolServer : Call -> Awaited jsval.


Lemma lookup_some {A : Type} (urlOf : A -> option string)
  (servers : option (list A)) (wanted : option string) (srv : A) :
  lookup urlOf servers wanted = Some srv ->
  urlOf srv = wanted /\ exists l, servers = Some l /\ In srv l.
Proof.
  unfold lookup. destruct servers as [l|]; [|discriminate].
  intros Hf. apply find_some in Hf. destruct Hf as [Hin Hu].
  split; [now apply optStrEq_true | now exists l].
Qed.



End ToolCalls.

Example executeTool_examples :
  Tool.calls (Tool.executeTool echoServer (Some configured) None (JStr "jwt")
                (toolRequest "https://a.example") true)
  = [JObj [("token", JStr "jwt")]] /\
  Tool.calls (Tool.executeTool echoServer (Some configured) None (JStr "jwt")
                (toolRequest "https://b.example") true)
  = [JObj [("token", JStr "key-b")]] /\
  Tool.calls (Tool.executeTool echoServer (Some configured) None (JStr "jwt")
                (toolRequest "https://c.example") true)
  = [JObj [("token", JNull)]] /\
  Tool.executeTool echoServer (Some configured) None (JStr "jwt")
    (toolRequest "https://z.example") true
  = {| Tool.requests := []; Tool.calls := [Tool.notFound];
       Tool.completion := Fulfilled |}.
Proof. repeat split. Qed.

(** ** The session guard *)

Section SessionGuard.
Import Session.

Lemma due_spec (st : State) (now : Z) :
  due (expiryOf (user st)) now = true <-> expiring st now.
Proof.
  unfold expiring, due. destruct (expiryOf (user st)) as [| |e].
  - split; [discriminate | intros [e [H _]]; discriminate H].
  - split; [discriminate | intros [e [H _]]; discriminate H].
  - rewrite andb_true_iff, negb_true_iff, Z.eqb_neq, Z.leb_le. split.
    + intros [Hz Hle]. exists e. repeat split; [exact Hz | lia].
    + intros [e' [[= <-] [Hz Hle]]]. split; [exact Hz | lia].
Qed.

(** C7, as stated, fails: the session is within 60 seconds of its expiry
    and the sign-out is requested, but the request fails; the check ends
    with the user, the token and the location as they were. *)
Lemma failed_signOut_keeps_the_session :
  expiring (sessionWith (ExpAt 1000030)) (1000000999 / 1000) /\
  checkTokenExpiry 1000000999 (Rejects (JStr "Failed to fetch"))
    (sessionWith (ExpAt 1000030))
  = {| after := sessionWith (ExpAt 1000030); signOutCalls := 1;
       completion := Rejected (JStr "Failed to fetch") |}.
Proof.
  split; [|reflexivity].
  exists 1000030. split; [reflexivity|]. split; [discriminate|].
  vm_compute. discriminate.
Qed.

(** C7, amended.  [checkTokenExpiry] asks for the sign-out exactly when
    the session carries an expiry and the time is within 60 seconds of it
    or past it.  The forced sign-out is carried out (the user store and
    the stored token are cleared and the page goes to the returned address,
    or to /auth) exactly when, in addition, that request resolves; when it
    rejects, user, token and location stay as they were and the rejection
    escapes the check.  When the condition fails everything is left as it
    was.  30 seconds before the expiry the session is signed out (if the
    request resolves), 120 seconds before it is not. *)
Theorem checkTokenExpiry_signs_out_iff :
  forall (nowMs : Z) (st : State),
    (forall signOut,
        signOutCalls (checkTokenExpiry nowMs signOut st) = 1%nat
        <-> expiring st (nowMs / 1000)) /\
    (forall signOut,
        (exists redirect_url,
            checkTokenExpiry nowMs signOut st
            = {| after := signedOut redirect_url; signOutCalls := 1;
                 completion := Fulfilled |})
        <-> expiring st (nowMs / 1000) /\ exists r, signOut = Resolves r) /\
    (expiring st (nowMs / 1000) ->
       forall redirect_url,
         checkTokenExpiry nowMs (Resolves redirect_url) st
         = {| after := signedOut redirect_url; signOutCalls := 1;
              completion := Fulfilled |}) /\
    (expiring st (nowMs / 1000) ->
       forall e,
         checkTokenExpiry nowMs (Rejects e) st
         = {| after := st; signOutCalls := 1; completion := Rejected e |}) /\
    (~ expiring st (nowMs / 1000) ->
       forall signOut,
         checkTokenExpiry nowMs signOut st
         = {| after := st; signOutCalls := 0; completion := Fulfilled |}) /\
    (forall u tok loc redirect_url,
        nowMs / 1000 + 30 <> 0 ->
        st = {| user := Some u; token := tok; location := loc |} ->
        (expires_at u = ExpAt (nowMs / 1000 + 30) ->
           after (checkTokenExpiry nowMs (Resolves redirect_url) st)
           = signedOut redirect_url) /\
        (expires_at u = ExpAt (nowMs / 1000 + 120) ->
           forall signOut,
             checkTokenExpiry nowMs signOut st
             = {| after := st; signOutCalls := 0; completion := Fulfilled |})).
Proof.
  intros nowMs st.
  assert (Hyes : expiring st (nowMs / 1000) ->
                 due (expiryOf (user st)) (nowMs / 1000) = true)
    by apply due_spec.
  assert (Hno : ~ expiring st (nowMs / 1000) ->
                due (expiryOf (user st)) (nowMs / 1000) = false).
  { intros H. destruct (due _ _) eqn:E; [|reflexivity].
    exfalso. apply H. now apply due_spec. }
  split; [|split; [|split; [|split; [|split]]]].
  - intros signOut. rewrite <- due_spec. unfold checkTokenExpiry.
    destruct (due _ _); [destruct signOut|]; simpl; split;
      intros H; try reflexivity; discriminate H.
  - intros signOut. rewrite <- due_spec. unfold checkTokenExpiry.
    destruct (due _ _); [destruct signOut as [r|e]|]; split.
    + intros _. split; [reflexivity | now exists r].
    + intros _. now exists r.
    + intros [r H]. discriminate H.
    + intros [_ [r H]]. discriminate H.
    + intros [r H]. discriminate H.
    + intros [H _]. discriminate H.
  - intros H redirect_url. unfold checkTokenExpiry. now rewrite (Hyes H).
  - intros H e. unfold checkTokenExpiry. now rewrite (Hyes H).
  - intros H signOut. unfold checkTokenExpiry. now rewrite (Hno H).
  - intros u tok loc redirect_url Hnz ->. split; intros He.
    + unfold checkTokenExpiry. simpl. rewrite He. simpl.
      replace (nowMs / 1000 + 30 =? 0) with false
        by (symmetry; now apply Z.eqb_neq).
      replace (nowMs / 1000 + 30 - 60 <=? nowMs / 1000) with true
        by (symmetry; apply Z.leb_le; lia).
      reflexivity.
    + intros signOut. unfold checkTokenExpiry. simpl. rewrite He. simpl.
      replace (nowMs / 1000 + 120 - 60 <=? nowMs / 1000) with false
        by (symmetry; apply Z.leb_gt; lia).
      now rewrite andb_false_r.
Qed.

(** C9.  With no expiry on the session (absent, null or zero) the check
    does nothing at any time: stores, token and location stay, and no
    sign-out request is sent. *)
Theorem checkTokenExpiry_without_expiry :
  forall (nowMs : Z) (signOut : Awaited (option string)) (st : State),
    expiryOf (user st) = ExpUndefined \/
    expiryOf (user st) = ExpNull \/
    expiryOf (user st) = ExpAt 0 ->
    checkTokenExpiry nowMs signOut st
    = {| after := st; signOutCalls := 0; completion := Fulfilled |}.
Proof.
  intros nowMs signOut st H. unfold checkTokenExpiry.
  destruct H as [H|[H|H]]; rewrite H; reflexivity.
Qed.

Example checkTokenExpiry_examples :
  after (checkTokenExpiry 1000000999 (Resolves None) (sessionWith (ExpAt 1000030)))
  = signedOut None /\
  after (checkTokenExpiry 1000000999 (Resolves (Some "/sso")) (sessionWith (ExpAt 1000060)))
  = signedOut (Some "/sso") /\
  after (checkTokenExpiry 1000000999 (Resolves None) (sessionWith (ExpAt 1000061)))
  = sessionWith (ExpAt 1000061) /\
  after (checkTokenExpiry 1000000999 (Rejects JNull) (sessionWith (ExpAt 1000030)))
  = sessionWith (ExpAt 1000030).
Proof. repeat split. Qed.

Lemma checkTokenExpiry_without_expiry_witness :
  checkTokenExpiry 1000000999 (Resolves None) (sessionWith (ExpAt 0))
  = {| after := sessionWith (ExpAt 0); signOutCalls := 0; completion := Fulfilled |}.
Proof.
  apply (checkTokenExpiry_without_expiry 1000000999 (Resolves None) (sessionWith (ExpAt 0))).
  right. right. reflexivity.
Defined.

End SessionGuard.

(** ** The tab coordinator *)

Section TabProtocol.
Import Tabs.

Lemma nth_error_updTab (f : Tab -> Tab) (ts : list Tab) :
  forall i j,
    nth_error (updTab i f ts) j
    = if Nat.eqb j i then option_map f (nth_error ts j) else nth_error ts j.
Proof.
  induction ts as [|t r IH]; intros i j; simpl.
  - destruct (Nat.eqb j i); destruct j; reflexivity.
  - destruct i as [|i], j as [|j]; simpl; try reflexivity. apply IH.
Qed.

Lemma length_updTab (f : Tab -> Tab) (ts : list Tab) (i : nat) :
  List.length (updTab i f ts) = List.length ts.
Proof.
  revert i. induction ts as [|t r IH]; intros [|i]; simpl; try reflexivity.
  now rewrite IH.
Qed.

Lemma in_broadcast (n i j : nat) (data : string) :
  (j < n)%nat -> j <> i -> In (j, data) (broadcast n i data).
Proof.
  intros Hlt Hne. unfold broadcast.
  apply (in_map (fun j => (j, data))). apply filter_In. split.
  - apply in_seq. lia.
  - apply negb_true_iff. now apply Nat.eqb_neq.
Qed.

Lemma in_removeNth {A : Type} (l : list A) :
  forall k x y,
    nth_error l k = Some y -> In x l -> x <> y -> In x (removeNth k l).
Proof.
  unfold removeNth. induction l as [|a r IH]; intros k x y Hk Hin Hne.
  - destruct Hin.
  - destruct k as [|k]; simpl in *.
    + injection Hk as <-. destruct Hin as [->|Hin]; [contradiction | exact Hin].
    + destruct Hin as [->|Hin]; [now left | right; eapply IH; eauto].
Qed.

Lemma step_length (w : World) (e : Event) :
  List.length (tabs (step w e)) = List.length (tabs w).
Proof.
  destruct e as [i visible nowMs signOut|k]; simpl.
  - destruct (nth_error (tabs w) i) as [t|]; [|reflexivity].
    destruct (handleVisibilityChange visible nowMs signOut t) as [t' posted].
    simpl. apply length_updTab.
  - destruct (nth_error (inflight w) k) as [[dest data]|]; [|reflexivity].
    simpl. apply length_updTab.
Qed.

Lemma pending_step (n : nat) (w : World) (e : Event) (acc : option nat) :
  List.length (tabs w) = n ->
  pending acc w ->
  pending (lastClaim n [e] acc) (step w e).
Proof.
  intros Hn Hp. destruct e as [i visible nowMs signOut|k]; simpl.
  - destruct (nth_error (tabs w) i) as [t|] eqn:Et.
    + assert (Hi : (i < n)%nat).
      { rewrite <- Hn. apply nth_error_Some. now rewrite Et. }
      destruct visible; simpl.
      * (* a claim *)
        apply Nat.ltb_lt in Hi. rewrite Hi. simpl.
        intros j tj Hj Hflag Hne. apply in_or_app. right.
        rewrite app_nil_r. apply in_broadcast; [|exact Hne].
        match type of Hj with
        | nth_error ?l _ = _ =>
            assert (Hj' : (j < List.length l)%nat)
              by (apply nth_error_Some; now rewrite Hj)
        end.
        now rewrite length_updTab in Hj'.
      * (* the tab was hidden: nothing happens *)
        destruct acc as [c|]; [|exact I]. simpl.
        intros j tj Hj Hflag Hne. rewrite app_nil_r.
        rewrite nth_error_updTab in Hj.
        destruct (Nat.eqb_spec j i) as [->|_].
        -- rewrite Et in Hj. simpl in Hj. injection Hj as <-.
           now apply (Hp i t).
        -- now apply (Hp j tj).
    + (* no such tab *)
      destruct visible; [|exact Hp].
      assert (Hi : Nat.ltb i n = false).
      { apply Nat.ltb_ge. rewrite <- Hn. now apply nth_error_None. }
      now rewrite Hi.
  - destruct (nth_error (inflight w) k) as [[dest data]|] eqn:Ek; [|exact Hp].
    destruct acc as [c|]; [|exact I]. simpl.
    intros j tj Hj Hflag Hne.
    rewrite nth_error_updTab in Hj.
    destruct (Nat.eqb_spec j dest) as [->|Hjd].
    + destruct (nth_error (tabs w) dest) as [t|] eqn:Et; [|discriminate].
      simpl in Hj. injection Hj as <-.
      unfold onmessage in Hflag.
      destruct (String.eqb_spec data "active") as [->|Hdata]; [discriminate|].
      apply (in_removeNth _ k _ (dest, data)); [exact Ek | now apply (Hp dest t) |].
      intros [= E]. now apply Hdata.
    + apply (in_removeNth _ k _ (dest, data)); [exact Ek | now apply (Hp j tj) |].
      intros [= E _]. now apply Hjd.
Qed.

Lemma pending_run (n : nat) (evs : list Event) :
  forall (w : World) (acc : option nat),
    List.length (tabs w) = n ->
    pending acc w ->
    pending (lastClaim n evs acc) (run w evs).
Proof.
  induction evs as [|e evs IH]; intros w acc Hn Hp; [exact Hp|].
  assert (Hstep : pending (lastClaim n [e] acc) (step w e))
    by now apply pending_step.
  assert (Hlen : List.length (tabs (step w e)) = n)
    by now rewrite step_length.
  specialize (IH (step w e) (lastClaim n [e] acc) Hlen Hstep).
  unfold run in *. simpl fold_left.
  destruct e as [i [|] nowMs signOut|k]; exact IH.
Qed.

(** C8.  A change to 'visible' sets the flag of the tab, posts 'active'
    and runs the expiry check, whatever the state of the tab was; the
    message is queued for every other tab; a tab that receives 'active'
    drops its flag.  Hence, for any interleaving of claims and deliveries
    starting from any state: once nothing is in flight, a tab that holds
    the flag is the tab of the last claim, so at most one tab holds it. *)
Theorem last_claim_wins :
  (forall nowMs signOut t,
      handleVisibilityChange true nowMs signOut t
      = ({| isLastActiveTab := true;
            session := Session.after
                         (Session.checkTokenExpiry nowMs signOut (session t));
            expiryChecks := S (expiryChecks t) |},
         ["active"])) /\
  (forall w i nowMs signOut t,
      nth_error (tabs w) i = Some t ->
      let w' := step w (VisibilityChange i true nowMs signOut) in
      flagOf w' i = Some true /\
      forall j, (j < List.length (tabs w))%nat -> j <> i ->
                In (j, "active") (inflight w')) /\
  (forall t, isLastActiveTab (onmessage "active" t) = false) /\
  (forall w k dest,
      nth_error (inflight w) k = Some (dest, "active") ->
      flagOf (step w (Deliver k)) dest <> Some true) /\
  (forall w evs k,
      lastClaim (List.length (tabs w)) evs None = Some k ->
      settled (run w evs) ->
      (forall i, flagOf (run w evs) i = Some true -> i = k) /\
      (forall i j, flagOf (run w evs) i = Some true ->
                   flagOf (run w evs) j = Some true -> i = j)).
Proof.
  split; [reflexivity|].
  split.
  { intros w i nowMs signOut t Ht. simpl. rewrite Ht. simpl. split.
    - unfold flagOf. simpl. rewrite nth_error_updTab, Nat.eqb_refl, Ht.
      reflexivity.
    - intros j Hj Hne. apply in_or_app. right. rewrite app_nil_r.
      now apply in_broadcast. }
  split; [reflexivity|].
  split.
  { intros w k dest Hk. simpl. rewrite Hk. unfold flagOf. simpl.
    rewrite nth_error_updTab, Nat.eqb_refl.
    destruct (nth_error (tabs w) dest); simpl; discriminate. }
  intros w evs k Hlast Hsettled.
  assert (Hone : forall i, flagOf (run w evs) i = Some true -> i = k).
  { intros i Hi.
    pose proof (pending_run (List.length (tabs w)) evs w None eq_refl I) as Hp.
    rewrite Hlast in Hp. simpl in Hp.
    unfold flagOf in Hi.
    destruct (nth_error (tabs (run w evs)) i) as [t|] eqn:Et; [|discriminate].
    simpl in Hi. injection Hi as Hflag.
    destruct (Nat.eq_dec i k) as [->|Hne]; [reflexivity|].
    specialize (Hp i t Et Hflag Hne).
    unfold settled in Hsettled. rewrite Hsettled in Hp. destruct Hp. }
  split; [exact Hone|].
  intros i j Hi Hj. rewrite (Hone i Hi), (Hone j Hj). reflexivity.
Qed.

End TabProtocol.

(** Tab 0 claims and tab 1 hears of it, then tab 1 claims and tab 0 hears
    of it: tab 1 holds the flag. *)
Example claims_in_turn :
  let w := Tabs.run twoTabs [claim 0; Tabs.Deliver 0; claim 1; Tabs.Deliver 0] in
  Tabs.settled w /\ Tabs.flagOf w 0 = Some false /\ Tabs.flagOf w 1 = Some true.
Proof. repeat split. Qed.

(** Both claim before either hears of the other: both drop the flag. *)
Example claims_crossing :
  let w := Tabs.run twoTabs [claim 0; claim 1; Tabs.Deliver 0; Tabs.Deliver 0] in
  Tabs.settled w /\ Tabs.flagOf w 0 = Some false /\ Tabs.flagOf w 1 = Some false.
Proof. repeat split. Qed.

(* ================================================================== *)
(** * Part III: further properties of the handlers *)
(* ================================================================== *)

(** ** What the sandbox runner hands to its callback *)

Section SandboxReports.
Import Sandbox.

Lemma jsonValue_defined (v : jsval) : v <> JUndefined -> jsonValue v <> JUndefined.
Proof. destruct v; simpl; congruence. Qed.

Lemma undefined_dec (v : jsval) : {v = JUndefined} + {v <> JUndefined}.
Proof. destruct v; (left; reflexivity) || (right; discriminate). Qed.

(** The serialization leaves no bigint behind, and serializing its result
    again changes nothing. *)
Lemma jsonValue_plain :
  forall v, hasBigInt (jsonValue v) = false /\ jsonValue (jsonValue v) = jsonValue v.
Proof.
  fix IH 1. intros v.
  destruct v as [| |b|n|n|s|xs|fs]; try (split; reflexivity).
  - cbn [jsonValue].
    set (g := fun x => match x with
                       | JUndefined => JNull
                       | _ => jsonValue x
                       end).
    assert (H : existsb hasBigInt (map g xs) = false /\ map g (map g xs) = map g xs).
    { induction xs as [|a xs IHxs]; [split; reflexivity|].
      destruct IHxs as [H1 H2]. destruct (IH a) as [Ha1 Ha2].
      assert (Hga : hasBigInt (g a) = false /\ g (g a) = g a).
      { destruct (undefined_dec a) as [->|Hne]; [split; reflexivity|].
        assert (E : g a = jsonValue a)
          by (destruct a; try reflexivity; contradiction).
        rewrite E. split; [exact Ha1|].
        pose proof (jsonValue_defined a Hne) as Hd.
        remember (jsonValue a) as ja.
        destruct ja; try exact Ha2. contradiction. }
      destruct Hga as [G1 G2]. cbn [map existsb]. rewrite G1, G2, H1, H2.
      split; reflexivity. }
    destruct H as [H1 H2]. split.
    + cbn [hasBigInt]. exact H1.
    + cbn [jsonValue]. fold g. now rewrite H2.
  - cbn [jsonValue].
    set (props := fix props (l : list (string * jsval)) : list (string * jsval) :=
                    match l with
                    | [] => []
                    | (k, x) :: r =>
                        match x with
                        | JUndefined => props r
                        | _ => (k, jsonValue x) :: props r
                        end
                    end).
    set (any := fix any (l : list (string * jsval)) : bool :=
                  match l with
                  | [] => false
                  | (_, x) :: r => hasBigInt x || any r
                  end).
    assert (H : any (props fs) = false /\ props (props fs) = props fs).
    { induction fs as [|[k a] fs IHfs]; [split; reflexivity|].
      destruct IHfs as [H1 H2]. destruct (IH a) as [Ha1 Ha2].
      destruct (undefined_dec a) as [->|Hne]; [split; assumption|].
      assert (E : props ((k, a) :: fs) = (k, jsonValue a) :: props fs)
        by (destruct a; try reflexivity; contradiction).
      rewrite E.
      pose proof (jsonValue_defined a Hne) as Hd.
      remember (jsonValue a) as ja.
      assert (E2 : props ((k, ja) :: props fs) = (k, jsonValue ja) :: props (props fs))
        by (destruct ja; try reflexivity; contradiction).
      rewrite E2, Ha2, H2. split; [|reflexivity].
      cbn [any]. fold any. now rewrite Ha1, H1. }
    destruct H as [H1 H2]. split.
    + cbn [hasBigInt]. fold any. exact H1.
    + cbn [jsonValue]. fold props. now rewrite H2.
Qed.

Lemma truthy_defined (v : jsval) : truthy v = true -> v <> JUndefined.
Proof. destruct v; simpl; congruence. Qed.

Lemma report_plain (r : Run) : defined3 r -> plainReport (report r).
Proof.
  intros [H1 [H2 H3]]. unfold plainReport.
  destruct (jsonValue_plain (JObj [("stdout", stdout r); ("stderr", stderr r);
                                   ("result", result r)])) as [Hb Hi].
  fold (report r) in Hb, Hi.
  assert (Hshape : exists a b c,
             report r = JObj [("stdout", a); ("stderr", b); ("result", c)]).
  { unfold report. cbn [jsonValue].
    destruct (stdout r); try contradiction;
      destruct (stderr r); try contradiction;
      destruct (result r); try contradiction;
      do 3 eexists; reflexivity. }
  split; [exact Hshape|]. split; [exact Hb|].
  destruct Hshape as [a [b [c E]]].
  unfold jsonClone. rewrite Hb, Hi. now rewrite E.
Qed.

Lemma dispatch_keeps_reports (cb : bool) (r : Run) (e : Event) :
  defined3 r -> Forall plainReport (calls r) ->
  defined3 (dispatch cb r e) /\ Forall plainReport (calls (dispatch cb r e)).
Proof.
  intros Hd Hc.
  assert (Hinv : forall r', defined3 r' -> Forall plainReport (calls r') ->
                   Forall plainReport (calls (invoke cb r'))).
  { intros r' Hd' Hc'. unfold invoke. destruct cb; simpl; [|exact Hc'].
    apply Forall_app. split; [exact Hc'|].
    constructor; [|constructor]. now apply report_plain. }
  destruct Hd as [H1 [H2 H3]].
  destruct e as [|d|]; simpl.
  - unfold onTimeout. destruct (executing r); [|now repeat split].
    split.
    + destruct cb; simpl; repeat split; try assumption; discriminate.
    + apply Hinv; simpl; [repeat split; try assumption; discriminate | exact Hc].
  - destruct (workerAlive r); [|now repeat split].
    assert (Hd' : defined3
              {| posted := posted r;
                 stdout := if truthy (d_stdout d) then d_stdout d else stdout r;
                 stderr := if truthy (d_stderr d) then d_stderr d else stderr r;
                 result := if truthy (d_result d) then d_result d else result r;
                 executing := executing r; workerAlive := workerAlive r;
                 calls := calls r |}).
    { repeat split; simpl;
        match goal with |- (if truthy ?x then _ else _) <> _ =>
          destruct (truthy x) eqn:E; [now apply truthy_defined | assumption] end. }
    split.
    + unfold onmessage, stopExecuting, invoke. destruct cb; exact Hd'.
    + unfold onmessage, stopExecuting. simpl calls at 1.
      apply (Hinv _ Hd'). exact Hc.
  - destruct (workerAlive r); [|now repeat split].
    split.
    + unfold onerror, stopExecuting, invoke. destruct cb; now repeat split.
    + unfold onerror, stopExecuting. simpl calls at 1.
      apply Hinv; [now repeat split | exact Hc].
Qed.

(** X1.  Whatever the worker sends and whenever the deadline falls, every
    value handed to the callback is an object with exactly the keys
    stdout, stderr and result, holds no bigint (64-bit integers arrive as
    decimal strings), and is plain JSON: serializing it again gives it
    back. *)
Theorem callback_gets_plain_report :
  forall (id code : string) (cb : bool) (evs : list Event) (v : jsval),
    In v (calls (executePythonAsWorker id code cb evs)) ->
    plainReport v.
Proof.
  intros id code cb evs v Hin.
  assert (H : forall r, defined3 r -> Forall plainReport (calls r) ->
                Forall plainReport (calls (fold_left (dispatch cb) evs r))).
  { clear Hin. induction evs as [|e evs IH]; intros r Hd Hc; [exact Hc|].
    simpl. destruct (dispatch_keeps_reports cb r e Hd Hc) as [Hd' Hc'].
    now apply IH. }
  unfold executePythonAsWorker in Hin.
  assert (Hall : Forall plainReport
                   (calls (fold_left (dispatch cb) evs (start id code)))).
  { apply H; [repeat split; discriminate | constructor]. }
  rewrite Forall_forall in Hall. now apply Hall.
Qed.

Lemma callback_gets_plain_report_witness :
  plainReport (JObj [("stdout", JStr "1"); ("stderr", JNull);
                     ("result", JStr "9007199254740993")]).
Proof.
  apply (callback_gets_plain_report "r1" "print(1)" true
           [WorkerMessage printed; Deadline]).
  simpl. left. reflexivity.
Defined.

End SandboxReports.

(** ** The order of the channel list, once more *)

Section ChannelOrderAgain.
Import Channel.

Lemma insertSorted_front {A : Type} (key : A -> Z) (x : A) (l : list A) :
  StronglySorted (keyLe key) (x :: l) ->
  insertSorted (byKey key) x l = x :: l.
Proof.
  intros H. inversion H as [|? ? _ Hx]; subst.
  destruct l as [|y r]; [reflexivity|]. simpl.
  inversion Hx as [|? ? Hy _]; subst. unfold keyLe in Hy. unfold byKey.
  destruct (Z.leb_spec (key x - key y) 0); [reflexivity | lia].
Qed.

Lemma sort_sorted_id {A : Type} (key : A -> Z) (l : list A) :
  StronglySorted (keyLe key) l -> sort (byKey key) l = l.
Proof.
  induction 1 as [|x r Hr IH Hx]; [reflexivity|].
  simpl. rewrite IH. apply insertSorted_front. now constructor.
Qed.

(** X2.  Sorting the channel list is idempotent and keeps a list that is
    already in type order as it is; it neither drops nor adds a channel. *)
Theorem sortChannels_idempotent :
  forall res : list Channel,
    sortChannels (sortChannels res) = sortChannels res /\
    List.length (sortChannels res) = List.length res /\
    (StronglySorted (fun a b => priority a <= priority b) res ->
     sortChannels res = res).
Proof.
  intros res. rewrite !sortChannels_byKey. split; [|split].
  - apply sort_sorted_id. apply (sort_sorted priority).
  - apply Permutation_length. apply sort_perm.
  - intros H. now apply sort_sorted_id.
Qed.

End ChannelOrderAgain.

(** ** The session guard over time *)

Section SessionOverTime.
Import Session.

(** X3.  A check that asked for the sign-out at some time asks for it at
    every later time too, as long as the session stands (so a sign-out
    that failed is tried again by the next check); and once a sign-out has
    completed, no later check asks again or changes anything. *)
Theorem signOut_is_retried_until_done :
  forall (st : State) (t1 t2 : Z) (s1 s2 : Awaited (option string)),
    t1 <= t2 ->
    signOutCalls (checkTokenExpiry t1 s1 st) = 1%nat ->
    (forall e, s1 = Rejects e ->
       signOutCalls (checkTokenExpiry t2 s2 (after (checkTokenExpiry t1 s1 st)))
       = 1%nat) /\
    (forall r, s1 = Resolves r ->
       checkTokenExpiry t2 s2 (after (checkTokenExpiry t1 s1 st))
       = {| after := signedOut r; signOutCalls := 0; completion := Fulfilled |}).
Proof.
  intros st t1 t2 s1 s2 Hle Hcall.
  assert (Hdue : due (expiryOf (user st)) (t1 / 1000) = true).
  { unfold checkTokenExpiry in Hcall.
    destruct (due _ _); [reflexivity | discriminate Hcall]. }
  assert (Hdue2 : due (expiryOf (user st)) (t2 / 1000) = true).
  { unfold due in *. destruct (expiryOf (user st)); try discriminate.
    apply andb_true_iff in Hdue. destruct Hdue as [Hz Hl].
    apply andb_true_iff. split; [exact Hz|].
    apply Z.leb_le in Hl. apply Z.leb_le.
    assert (t1 / 1000 <= t2 / 1000) by (apply Z.div_le_mono; lia). lia. }
  split.
  - intros e ->. unfold checkTokenExpiry at 2. rewrite Hdue. simpl.
    unfold checkTokenExpiry. rewrite Hdue2. now destruct s2.
  - intros r ->. unfold checkTokenExpiry at 2. rewrite Hdue. reflexivity.
Qed.

Lemma signOut_is_retried_until_done_witness :
  signOutCalls
    (checkTokenExpiry 1000015999 (Resolves None)
       (after (checkTokenExpiry 1000000999 (Rejects JNull)
                 (sessionWith (ExpAt 1000030)))))
  = 1%nat.
Proof.
  apply (signOut_is_retried_until_done (sessionWith (ExpAt 1000030))
           1000000999 1000015999 (Rejects JNull) (Resolves None)) with (e := JNull).
  - lia.
  - reflexivity.
  - reflexivity.
Defined.

End SessionOverTime.

(** ** The tool invoker, all outcomes *)

Section ToolOutcomes.
Import Tool.
Variable executeToolServer : Call -> Awaited jsval.

(** X4.  One invocation makes at most one request and calls back at most
    once.  The callback is called exactly when it was given and the
    invocation is fulfilled; a request that rejects, or, a callback being
    given, a result that cannot be serialized, rejects the invocation
    without any call of the callback. *)
Theorem executeTool_calls_back_at_most_once :
  forall (settingsServers : option (list ToolServer))
         (storeServers : option (list ToolServerData))
         (localToken : jsval) (data : Request) (cb : bool),
    let run := executeTool executeToolServer settingsServers storeServers
                 localToken data cb in
    (List.length (requests run) <= 1)%nat /\
    (List.length (calls run) <= 1)%nat /\
    (List.length (calls run) = 1%nat <-> cb = true /\ completion run = Fulfilled) /\
    (forall call e, requests run = [call] ->
                    executeToolServer call = Rejects e ->
                    calls run = [] /\ completion run = Rejected e) /\
    (forall call res, requests run = [call] ->
                      executeToolServer call = Resolves res ->
                      jsonClone res = None -> cb = true ->
                      calls run = [] /\ exists e, completion run = Rejected e).
Proof.
  intros settingsServers storeServers localToken data cb. unfold executeTool.
  destruct (lookup url settingsServers (server_url data)) as [srv|].
  - match goal with |- context [executeToolServer ?c] =>
      destruct (executeToolServer c) as [res|e] eqn:E end;
      [destruct cb; [destruct (jsonClone res) eqn:J|]|];
      simpl; (split; [lia|]); (split; [lia|]);
      (split;
       [ split;
         [ intros H; try discriminate H; split; reflexivity
         | intros [H1 H2]; try discriminate H1; try discriminate H2; reflexivity ]
       | ]);
      (split;
       [ intros call e' Hreq He; injection Hreq as <-; rewrite E in He;
         try discriminate He; injection He as <-; split; reflexivity
       | ]);
      intros call res' Hreq Hres Hnone Hcb; injection Hreq as <-;
      rewrite E in Hres; try discriminate Hres; injection Hres as <-;
      try discriminate Hcb; try congruence;
      (split; [reflexivity | eexists; reflexivity]).
  - destruct cb; simpl; (split; [lia|]); (split; [lia|]);
      (split;
       [ split;
         [ intros H; try discriminate H; split; reflexivity
         | intros [H1 H2]; try discriminate H1; try discriminate H2; reflexivity ]
       | ]);
      (split; [ intros call e' Hreq He; discriminate Hreq
              | intros call res' Hreq; discriminate Hreq ]).
Qed.

(** X5.  When several configured servers have the requested url, the first
    in the list is the one that is called and whose credential is used; and
    the local session token goes to a server only if that server's mode is
    'session' (or its own key is that very value). *)
Theorem executeTool_first_match_and_token :
  forall (before after : list ToolServer) (srv : ToolServer)
         (storeServers : option (list ToolServerData))
         (localToken : jsval) (data : Request) (cb : bool),
    (forall s, In s before -> url s <> server_url data) ->
    url srv = server_url data ->
    exists call,
      requests (executeTool executeToolServer (Some (before ++ srv :: after)%list)
                  storeServers localToken data cb) = [call] /\
      call_url call = url srv /\
      call_token call = credential srv localToken /\
      (call_token call = localToken ->
       auth_type srv = Some "session" \/ key srv = localToken \/ localToken = JNull).
Proof.
  intros before after srv storeServers localToken data cb Hbefore Hsrv.
  assert (Hfind : lookup url (Some (before ++ srv :: after)%list) (server_url data)
                  = Some srv).
  { unfold lookup. induction before as [|b before IH]; simpl.
    - rewrite Hsrv. now rewrite (proj2 (optStrEq_true _ _) eq_refl).
    - rewrite (proj2 (optStrEq_false _ _) (Hbefore b (or_introl eq_refl))).
      apply IH. intros s Hs. apply Hbefore. now right. }
  unfold executeTool. rewrite Hfind.
  eexists. split; [|split; [|split]].
  - match goal with |- context [executeToolServer ?c] =>
      destruct (executeToolServer c) as [res|e] end; [|reflexivity].
    destruct cb; [|reflexivity]. destruct (jsonClone res); reflexivity.
  - reflexivity.
  - reflexivity.
  - simpl. unfold credential.
    destruct (auth_type srv) as [a|]; [|auto].
    destruct (String.eqb_spec a "bearer"); [auto|].
    destruct (String.eqb_spec a "session"); [subst; auto|].
    intros <-. auto.
Qed.

End ToolOutcomes.

Lemma executeTool_first_match_and_token_witness :
  exists call,
    Tool.requests (Tool.executeTool echoServer
                     (Some ([ {| Tool.url := Some "https://a.example";
                                 Tool.auth_type := Some "session";
                                 Tool.key := JStr "key-a" |} ]
                            ++ {| Tool.url := Some "https://b.example";
                                  Tool.auth_type := Some "session";
                                  Tool.key := JStr "k1" |}
                            :: [ {| Tool.url := Some "https://b.example";
                                    Tool.auth_type := Some "bearer";
                                    Tool.key := JStr "k2" |} ])%list)
                     None (JStr "jwt") (toolRequest "https://b.example") true)
    = [call] /\
    Tool.call_url call = Some "https://b.example" /\
    Tool.call_token call = JStr "jwt" /\
    (Tool.call_token call = JStr "jwt" ->
     Some "session" = Some "session" \/ JStr "k1" = JStr "jwt" \/ JStr "jwt" = JNull).
Proof.
  apply (executeTool_first_match_and_token echoServer
           [ {| Tool.url := Some "https://a.example";
                Tool.auth_type := Some "session"; Tool.key := JStr "key-a" |} ]
           [ {| Tool.url := Some "https://b.example";
                Tool.auth_type := Some "bearer"; Tool.key := JStr "k2" |} ]
           {| Tool.url := Some "https://b.example";
              Tool.auth_type := Some "session"; Tool.key := JStr "k1" |}
           None (JStr "jwt") (toolRequest "https://b.example") true).
  - simpl. intros s [<-|[]]. discriminate.
  - reflexivity.
Defined.

(** ** Chat events, branch by branch *)

Section ChatBranches.
Import Chat.
Variable getChatList : jsval -> Z -> Awaited jsval.
Variable getAllTags : jsval -> Awaited jsval.
Variable chatCompletion :
  jsval -> option FormData -> jsval -> Awaited (option Response).

Lemma bind_ret {A B : Type} (a : A) (k : A -> Step B) : bind (ret a) k = k a.
Proof. unfold bind, ret. now destruct (k a). Qed.

Lemma focus_shape (env : Env) :
  (exists f, focus env = ret f) \/ (exists e, focus env = throw e).
Proof.
  unfold focus. destruct (electron env) as [[res|e]|]; simpl.
  - left. now eexists.
  - right. now eexists.
  - left. now eexists.
Qed.

Lemma tryCatchFinally_effects (body : Step unit) (handler : jsval -> Step unit)
  (fin : Step unit) (x : Effect) :
  In x (fst (tryCatchFinally body handler fin)) ->
  In x (fst body) \/ (exists e, snd body = inr e /\ In x (fst (handler e)))
  \/ In x (fst fin).
Proof.
  unfold tryCatchFinally.
  destruct body as [l [u|e]]; simpl.
  - destruct fin as [lf [u'|e']]; simpl; rewrite in_app_iff; tauto.
  - destruct (handler e) as [l' r] eqn:Eh.
    destruct fin as [lf [u'|e']]; simpl; rewrite !in_app_iff;
      intros [[H|H]|H]; try tauto;
      right; left; exists e; rewrite Eh; auto.
Qed.

(** Whatever the [try] block does, it only acknowledges and relays. *)
Lemma proxy_effects_kind (env : Env) (d : Data) (cb : bool) (x : Effect) :
  In x (fst (proxy chatCompletion env d cb)) ->
  (exists v, x = Ack v) \/ (exists l, x = Emit (channel d) (JStr l)).
Proof.
  unfold proxy. intros H.
  apply bind_effects in H. destruct H as [H|[url [_ H]]].
  { rewrite index_effects in H. destruct H. }
  apply bind_effects in H. destruct H as [H|[key [_ H]]].
  { rewrite index_effects in H. destruct H. }
  apply bind_effects in H. destruct H as [H|[cfg [_ H]]].
  { rewrite index_effects in H. destruct H. }
  apply bind_effects in H. destruct H as [H|[form [_ H]]].
  { destruct cfg as [[pfx|]|]; simpl in H; try destruct H.
    destruct (String.eqb pfx ""); simpl in H; try destruct H.
    destruct (form_data d) as [fd|]; simpl in H; try destruct H.
    destruct (fd_model fd); simpl in H; destruct H. }
  apply bind_effects in H. destruct H as [H|[res [_ H]]].
  { rewrite await_effects in H. destruct H. }
  destruct res as [r|]; [|destruct H].
  destruct (negb (ok r)).
  { apply bind_effects in H. destruct H as [H|[e [_ H]]]; [|destruct H].
    rewrite await_effects in H. destruct H. }
  destruct (match form with Some fd => fd_stream fd | None => false end).
  - apply bind_effects in H. destruct H as [H|[_ [_ H]]].
    + apply ack_effects in H. left. eexists; exact H.
    + apply relay_effects in H. now right.
  - apply bind_effects in H. destruct H as [H|[v [_ H]]].
    + rewrite await_effects in H. destruct H.
    + apply ack_effects in H. left. eexists; exact H.
Qed.

(** The effects of the command branch. *)
Lemma command_branch_effects (env : Env) (ev : Event) (cb : bool) (x : Effect) :
  In x (fst (if isType ev "execute:python" then
               match ev_data ev with
               | Some d => perform (RunPython (py_id d) (py_code d) cb)
               | None => throw typeError
               end
             else if isType ev "execute:tool" then
               perform (RunTool (option_map tool (ev_data ev)) cb)
             else if isType ev "request:chat:completion" then
               match ev_data ev with
               | Some d =>
                   tryCatchFinally (proxy chatCompletion env d cb)
                     (fun error => ack cb error)
                     (emit env (channel d) doneMarker)
               | None => throw typeError
               end
             else ret tt)) ->
  isCommandEffect x.
Proof.
  destruct (isType ev "execute:python").
  { destruct (ev_data ev); simpl; [intros [<-|[]]; exact I | intros []]. }
  destruct (isType ev "execute:tool").
  { simpl. intros [<-|[]]. exact I. }
  destruct (isType ev "request:chat:completion"); [|intros []].
  destruct (ev_data ev) as [d|]; [|intros []].
  intros H. apply tryCatchFinally_effects in H.
  destruct H as [H|[[e [_ H]]|H]].
  - apply proxy_effects_kind in H. destruct H as [[v ->]|[l ->]]; exact I.
  - apply ack_effects in H. subst. exact I.
  - apply emit_effects in H. subst. exact I.
Qed.

(** The effects of the notification branch, when it is not the sound,
    notification and toast of a finished completion. *)
Lemma refresh_effects (env : Env) (ev : Event) (x : Effect) :
  In x (fst (if isType ev "chat:title" then refreshChats getChatList env
             else if isType ev "chat:tags" then refreshTags getAllTags env
             else ret tt)) ->
  exists v, x = SetCurrentChatPage 1 \/ x = SetChats v \/ x = SetTags v.
Proof.
  destruct (isType ev "chat:title").
  { unfold refreshChats. destruct (getChatList (token env) 1) as [a|e]; simpl.
    - intros [<-|[<-|[]]]; [exists JNull | exists a]; auto.
    - intros [<-|[]]. exists JNull. auto. }
  destruct (isType ev "chat:tags"); [|intros []].
  unfold refreshTags. destruct (getAllTags (token env)) as [a|e]; simpl.
  - intros [<-|[]]. exists a. auto.
  - intros [].
Qed.

Lemma announce_effects (env : Env) (ev : Event) (d : Data) (x : Effect) :
  In x (fst (announce env ev d)) ->
  isNotification x /\
  (forall t b i, x = Notify t b i ->
     isLastActiveTab env = true /\ notificationEnabled env = true /\
     t = template (title d) ++ " • Open WebUI" /\ b = content d).
Proof.
  unfold announce.
  destruct (notificationSoundAlways env);
    destruct (isLastActiveTab env); destruct (notificationEnabled env); simpl;
    intros H; repeat (destruct H as [<-|H]); try destruct H;
    (split; [exact I|]); intros t b i E; try discriminate E;
    injection E as <- <- <-; auto.
Qed.

Lemma announce_toast (env : Env) (ev : Event) (d : Data) :
  exists before,
    announce env ev d
    = ((before ++ [Toast ("/c/" ++ template (chat_id ev)) (content d) (title d)])%list,
       inl tt).
Proof.
  unfold announce.
  destruct (notificationSoundAlways env);
    destruct (isLastActiveTab env && notificationEnabled env); simpl;
    eexists; f_equal;
    match goal with
    | |- ?l = (_ ++ [?t])%list =>
        match l with
        | [?a; ?b; ?c; t] => instantiate (1 := [a; b; c])
        | [?a; ?b; t] => instantiate (1 := [a; b])
        | [?a; t] => instantiate (1 := [a])
        | [t] => instantiate (1 := [])
        end
    end; reflexivity.
Qed.

(** X6.  A 'chat:completion' event whose [done] is not truthy (or that has
    no data) does nothing at all: no sound, no notification, no toast, no
    store is written, whatever the tab, the open chat or the settings. *)
Theorem unfinished_completion_is_silent :
  forall (env : Env) (ev : Event) (cb : bool),
    ev_type ev = Some "chat:completion" ->
    (forall d, ev_data ev = Some d -> truthy (done d) = false) ->
    fst (chatEventHandler getChatList getAllTags chatCompletion env ev cb) = [].
Proof.
  intros env ev cb Htype Hdone. unfold chatEventHandler.
  destruct (focus_shape env) as [[f Hf]|[e Hf]]; rewrite Hf; [|reflexivity].
  rewrite bind_ret. unfold isType. rewrite Htype. simpl.
  destruct (notify env ev f).
  - destruct (ev_data ev) as [d|]; [|reflexivity].
    now rewrite (Hdone d eq_refl).
  - now destruct (isCommand env ev).
Qed.

(** X7.  A desktop notification is raised only for a finished
    'chat:completion' event that passes the gate, and only when this tab
    is the last active one and notifications are enabled in the settings;
    its title is the chat title followed by " • Open WebUI", and it
    always comes with the toast that links to the chat. *)
Theorem chat_notification_needs_active_tab :
  forall (env : Env) (ev : Event) (cb : bool) (t : string) (b : jsval) (i : string),
    In (Notify t b i)
       (fst (chatEventHandler getChatList getAllTags chatCompletion env ev cb)) ->
    isLastActiveTab env = true /\ notificationEnabled env = true /\
    ev_type ev = Some "chat:completion" /\
    exists d f,
      ev_data ev = Some d /\ truthy (done d) = true /\
      focus env = ret f /\ notify env ev f = true /\
      t = template (title d) ++ " • Open WebUI" /\ b = content d /\
      In (Toast ("/c/" ++ template (chat_id ev)) (content d) (title d))
         (fst (chatEventHandler getChatList getAllTags chatCompletion env ev cb)).
Proof.
  intros env ev cb t b i. unfold chatEventHandler.
  destruct (focus_shape env) as [[f Hf]|[e Hf]]; rewrite Hf; [|intros []].
  rewrite bind_ret.
  destruct (notify env ev f) eqn:Hn.
  - destruct (ev_data ev) as [d|] eqn:Hd.
    + destruct (isType ev "chat:completion" && truthy (done d)) eqn:Hc.
      * intros Hin. apply andb_true_iff in Hc. destruct Hc as [Hty Hdone].
        destruct (announce_effects env ev d _ Hin) as [_ Hx].
        destruct (Hx t b i eq_refl) as [H1 [H2 [H3 H4]]].
        split; [exact H1|]. split; [exact H2|].
        split; [now apply optStrEq_true in Hty|].
        exists d, f. repeat split; try assumption; try reflexivity.
        destruct (announce_toast env ev d) as [before ->]. simpl.
        apply in_or_app. right. now left.
      * intros Hin. apply refresh_effects in Hin.
        destruct Hin as [v [H|[H|H]]]; discriminate H.
    + intros Hin. apply refresh_effects in Hin.
      destruct Hin as [v [H|[H|H]]]; discriminate H.
  - destruct (isCommand env ev); [|intros []].
    intros Hin. apply command_branch_effects in Hin. destruct Hin.
Qed.

(** X8.  A command is run, acknowledged or relayed only when the event's
    session id is the id of this socket, the event's chat is the open one
    (or temporary chats are on), and the focus reading is false: an event
    that takes the notification branch never executes anything. *)
Theorem commands_run_only_behind_the_gate :
  forall (env : Env) (ev : Event) (cb : bool) (x : Effect),
    In x (fst (chatEventHandler getChatList getAllTags chatCompletion env ev cb)) ->
    isCommandEffect x ->
    focus env = ret false /\
    (chat_id ev = chatId env \/ temporaryChatEnabled env = true) /\
    (match ev_data ev with Some d => session_id d | None => None end)
    = (match socket env with Some id => id | None => None end).
Proof.
  intros env ev cb x. unfold chatEventHandler.
  destruct (focus_shape env) as [[f Hf]|[e Hf]]; rewrite Hf; [|intros []].
  rewrite bind_ret.
  destruct (notify env ev f) eqn:Hn.
  - intros Hin Hx. exfalso.
    destruct (ev_data ev) as [d|].
    + destruct (isType ev "chat:completion" && truthy (done d)).
      * apply announce_effects in Hin. destruct Hin as [Hk _].
        destruct x; simpl in *; contradiction.
      * apply refresh_effects in Hin.
        destruct Hin as [v [-> | [-> | ->]]]; exact Hx.
    + apply refresh_effects in Hin.
      destruct Hin as [v [-> | [-> | ->]]]; exact Hx.
  - destruct (isCommand env ev) eqn:Hc; [|intros []].
    intros _ _. unfold notify in Hn.
    apply orb_false_iff in Hn. destruct Hn as [Hchat ->].
    split; [reflexivity|]. split.
    + apply andb_false_iff in Hchat. destruct Hchat as [H|H].
      * left. apply negb_false_iff in H. now apply optStrEq_true.
      * right. now apply negb_false_iff in H.
    + now apply optStrEq_true.
Qed.

(** X9.  With an acknowledgment callback, a 'request:chat:completion'
    command never lets an error escape: whatever the [try] block throws is
    handed to the callback, and the handler is fulfilled. *)
Theorem completion_command_reports_errors :
  forall (env : Env) (ev : Event) (d : Data) (sid : option string),
    focus env = ret false ->
    notify env ev false = false ->
    socket env = Some sid ->
    ev_data ev = Some d ->
    session_id d = sid ->
    ev_type ev = Some "request:chat:completion" ->
    snd (chatEventHandler getChatList getAllTags chatCompletion env ev true)
    = inl tt /\
    (forall e, snd (proxy chatCompletion env d true) = inr e ->
       In (Ack e)
          (fst (chatEventHandler getChatList getAllTags chatCompletion env ev true))).
Proof.
  intros env ev d sid Hfocus Hgate Hsock Hdata Hsid Htype.
  unfold chatEventHandler. rewrite Hfocus, bind_ret, Hgate.
  assert (Hcmd : isCommand env ev = true).
  { unfold isCommand. rewrite Hdata, Hsock, Hsid. now apply optStrEq_true. }
  rewrite Hcmd. unfold isType. rewrite Htype, Hdata. simpl.
  unfold tryCatchFinally, emit. rewrite Hsock.
  destruct (proxy chatCompletion env d true) as [l [[]|e]]; simpl.
  - split; [reflexivity | intros e H; discriminate H].
  - split; [reflexivity|]. intros e' [= <-].
    apply in_or_app. left. apply in_or_app. right. now left.
Qed.

End ChatBranches.

Lemma chat_notification_needs_active_tab_witness :
  true = true /\ true = true /\
  Some "chat:completion" = Some "chat:completion" /\
  exists d f,
    Some {| Chat.done := JBool true; Chat.title := Some "Plan";
            Chat.content := JStr "ready"; Chat.session_id := None;
            Chat.py_id := ""; Chat.py_code := "";
            Chat.tool := Chat.tool commandData;
            Chat.channel := JNull; Chat.form_data := None;
            Chat.urlIdx := None |} = Some d /\
    truthy (Chat.done d) = true /\
    Chat.focus loudEnv = Chat.ret f /\
    Chat.notify loudEnv finishedEvent f = true /\
    "Plan • Open WebUI" = Js.template (Chat.title d) ++ " • Open WebUI" /\
    JStr "ready" = Chat.content d /\
    In (Chat.Toast ("/c/" ++ Js.template (Some "other")) (Chat.content d) (Chat.title d))
       (fst (Chat.chatEventHandler failingList failingTags brokenStream
               loudEnv finishedEvent true)).
Proof.
  apply (chat_notification_needs_active_tab failingList failingTags brokenStream
           loudEnv finishedEvent true "Plan • Open WebUI" (JStr "ready")
           "/static/favicon.png").
  simpl. right. right. left. reflexivity.
Defined.

Lemma unfinished_completion_is_silent_witness :
  fst (Chat.chatEventHandler failingList failingTags brokenStream envOpen
         (chatEvent "other" "chat:completion") true) = [].
Proof.
  apply (unfinished_completion_is_silent failingList failingTags brokenStream
           envOpen (chatEvent "other" "chat:completion") true).
  - reflexivity.
  - intros d [= <-]. reflexivity.
Defined.

Lemma commands_run_only_behind_the_gate_witness :
  Chat.focus envOpen = Chat.ret false /\
  (Some "open" = Some "open" \/ false = true) /\
  Some "sock-1" = Some "sock-1".
Proof.
  apply (commands_run_only_behind_the_gate failingList failingTags brokenStream
           envOpen (chatEvent "open" "request:chat:completion") true
           (Chat.Ack (JStr "network error"))).
  - simpl. tauto.
  - exact I.
Defined.

Lemma completion_command_reports_errors_witness :
  snd (Chat.chatEventHandler failingList failingTags brokenStream envOpen
         (chatEvent "open" "request:chat:completion") true) = inl tt.
Proof.
  refine (proj1 (completion_command_reports_errors failingList failingTags
                   brokenStream envOpen
                   (chatEvent "open" "request:chat:completion") commandData
                   (Some "sock-1") _ _ _ _ _ _)); reflexivity.
Defined.

(** ** The relay of a stream and the model prefix *)

Section ChatStreams.
Import Chat.
Variable chatCompletion :
  jsval -> option FormData -> jsval -> Awaited (option Response).




Lemma stripPrefix_app (p s : string) : Sandbox.stripPrefix p (p ++ s) = Some s.
Proof.
  induction p as [|c p IH]; simpl; [now destruct s|].
  now rewrite Ascii.eqb_refl.
Qed.

Lemma removeFirst_unfold (pat s : string) :
  removeFirst pat s
  = match Sandbox.stripPrefix pat s with
    | Some r => r
    | None => match s with
              | String c r => String c (removeFirst pat r)
              | EmptyString => EmptyString
              end
    end.
Proof. now destruct s. Qed.

Lemma stripPrefix_prefix (p s : string) :
  String.prefix p s = false -> Sandbox.stripPrefix p s = None.
Proof.
  revert s. induction p as [|c p IH]; intros s H.
  - destruct s; simpl in H; discriminate H.
  - destruct s as [|d s]; [reflexivity|]. simpl in *.
    destruct (ascii_dec c d) as [->|Hne].
    + rewrite Ascii.eqb_refl. now apply IH.
    + now rewrite (proj2 (Ascii.eqb_neq c d) Hne).
Qed.

Lemma includes_unfold (s sub : string) :
  includes s sub
  = String.prefix sub s || match s with
                           | EmptyString => false
                           | String _ r => includes r sub
                           end.
Proof. now destruct s. Qed.

Lemma removeFirst_absent (pat s : string) :
  includes s pat = false -> removeFirst pat s = s.
Proof.
  induction s as [|c r IH]; intros H; rewrite removeFirst_unfold;
    rewrite includes_unfold in H; apply orb_false_iff in H;
    destruct H as [Hp Hr]; rewrite (stripPrefix_prefix _ _ Hp).
  - reflexivity.
  - now rewrite IH.
Qed.

(** The relay looks at the environment for the socket only. *)
Lemma relay_socket (env env' : Env) (ch : jsval) (cs : list string)
  (failure : option jsval) :
  socket env = socket env' ->
  relay env ch cs failure = relay env' ch cs failure.
Proof.
  intros Hs.
  assert (Hall : forall ls, emitAll env ch ls = emitAll env' ch ls).
  { induction ls as [|l r IH]; simpl; [reflexivity|].
    rewrite IH. unfold emit. now rewrite Hs. }
  induction cs as [|c r IH]; simpl; [reflexivity|]. now rewrite Hall, IH.
Qed.

(** X11.  With a connection prefix configured, a request for the model
    "prefix.name" is proxied exactly as a request for "name" on a
    connection without prefix: the same call is made and the same
    acknowledgments and relays follow.  A model name in which "prefix."
    does not occur is forwarded unchanged. *)
Theorem model_prefix_is_stripped :
  forall (env : Env) (d : Data) (cb : bool) (dc : DirectConnections)
         (cfgs : list (option string)) (p : string) (fd : FormData),
    directConnections env = Some dc ->
    OPENAI_API_CONFIGS dc = Some cfgs ->
    at_ cfgs (urlIdx d) = Some (Some p) ->
    p <> ""%string ->
    form_data d = Some fd ->
    (forall m, fd_model fd = Some (p ++ "." ++ m) ->
       proxy chatCompletion env d cb
       = proxy chatCompletion (withConfigs env (map (fun _ => None) cfgs))
           (withModel d m) cb) /\
    (forall m, fd_model fd = Some m -> includes m (p ++ ".") = false ->
       proxy chatCompletion env d cb
       = proxy chatCompletion (withConfigs env (map (fun _ => None) cfgs)) d cb).
Proof.
  intros env d cb dc cfgs p fd Hdc Hcfgs Hat Hp Hfd.
  assert (Hat' : at_ (map (fun _ : option string => @None string) cfgs) (urlIdx d)
                 = Some None).
  { unfold at_ in *. destruct (urlIdx d) as [n|]; [|discriminate].
    rewrite nth_error_map, Hat. reflexivity. }
  assert (Hpe : String.eqb p "" = false) by now apply String.eqb_neq.
  assert (Happ : forall m, (p ++ String "." m)%string = ((p ++ ".") ++ m)%string).
  { intros m. clear. induction p as [|c p IH]; simpl; [reflexivity | now rewrite IH]. }
  split; intros m Hm; [|intros Habsent];
    unfold proxy, withConfigs, withModel;
    cbn [directConnections form_data urlIdx channel];
    rewrite Hdc; cbn [option_map OPENAI_API_BASE_URLS OPENAI_API_KEYS
                        OPENAI_API_CONFIGS];
    rewrite Hcfgs;
    (destruct (OPENAI_API_BASE_URLS dc) as [us|]; [|reflexivity]);
    (destruct (OPENAI_API_KEYS dc) as [ks|]; [|reflexivity]);
    unfold index; rewrite !bind_ret, Hat, Hat', Hpe, Hfd; cbn [option_map];
    rewrite Hm, !bind_ret; cbn [fd_stream fd_model fd_rest].
  - change (p ++ "." ++ m)%string with (p ++ String "." m)%string.
    rewrite (Happ m), removeFirst_unfold, stripPrefix_app.
    destruct (chatCompletion _ _ _) as [[r|]|e]; try reflexivity.
    unfold await. rewrite !bind_ret.
    destruct (negb (ok r)); [reflexivity|].
    destruct (fd_stream fd); [|reflexivity].
    now rewrite (relay_socket env
                   {| visible := visible env; electron := electron env;
                      chatId := chatId env;
                      temporaryChatEnabled := temporaryChatEnabled env;
                      notificationSoundAlways := notificationSoundAlways env;
                      notificationEnabled := notificationEnabled env;
                      isLastActiveTab := isLastActiveTab env;
                      directConnections :=
                        Some {| OPENAI_API_BASE_URLS := Some us;
                                OPENAI_API_KEYS := Some ks;
                                OPENAI_API_CONFIGS :=
                                  Some (map (fun _ : option string => None) cfgs) |};
                      socket := socket env; token := token env;
                      WEBUI_BASE_URL := WEBUI_BASE_URL env |}
                   (channel d) (decoded r) (failure r) eq_refl).
  - rewrite (removeFirst_absent _ _ Habsent).
    replace {| fd_model := Some m; fd_stream := fd_stream fd; fd_rest := fd_rest fd |}
      with fd by (destruct fd; simpl in *; now rewrite Hm).
    destruct (chatCompletion _ _ _) as [[r|]|e]; try reflexivity.
    unfold await. rewrite !bind_ret.
    destruct (negb (ok r)); [reflexivity|].
    destruct (fd_stream fd); [|reflexivity].
    now rewrite (relay_socket env
                   {| visible := visible env; electron := electron env;
                      chatId := chatId env;
                      temporaryChatEnabled := temporaryChatEnabled env;
                      notificationSoundAlways := notificationSoundAlways env;
                      notificationEnabled := notificationEnabled env;
                      isLastActiveTab := isLastActiveTab env;
                      directConnections :=
                        Some {| OPENAI_API_BASE_URLS := Some us;
                                OPENAI_API_KEYS := Some ks;
                                OPENAI_API_CONFIGS :=
                                  Some (map (fun _ : option string => None) cfgs) |};
                      socket := socket env; token := token env;
                      WEBUI_BASE_URL := WEBUI_BASE_URL env |}
                   (channel d) (decoded r) (failure r) eq_refl).
Qed.

End ChatStreams.

Lemma model_prefix_is_stripped_witness :
  Chat.proxy brokenStream envOpen commandData true
  = Chat.proxy brokenStream (withConfigs envOpen [None]) (withModel commandData "gpt")
      true.
Proof.
  apply (model_prefix_is_stripped brokenStream envOpen commandData true
           {| Chat.OPENAI_API_BASE_URLS := Some [JStr "https://llm.example/v1"];
              Chat.OPENAI_API_KEYS := Some [JStr "sk-1"];
              Chat.OPENAI_API_CONFIGS := Some [Some "lab"] |}
           [Some "lab"] "lab"
           {| Chat.fd_model := Some "lab.gpt"; Chat.fd_stream := true;
              Chat.fd_rest := JNull |});
    try reflexivity.
  discriminate.
Defined.

(** ** Channel events: what is ignored, what is announced, what adds up *)

Section ChannelFacts.
Import Channel.

Lemma prefix_app (sub post : string) : String.prefix sub (sub ++ post) = true.
Proof.
  induction sub as [|c sub IH]; simpl; [now destruct post|].
  destruct (ascii_dec c c); [exact IH | contradiction].
Qed.

Lemma includes_app (pre sub post : string) :
  includes (pre ++ sub ++ post) sub = true.
Proof.
  induction pre as [|c pre IH]; rewrite includes_unfold.
  - simpl. now rewrite prefix_app.
  - simpl. rewrite IH. apply orb_true_r.
Qed.

(** X12.  Three kinds of channel events are dropped without a trace: no
    store changes, nothing is fetched, nobody is notified.  They are the
    'typing' events; the events written by the current user; and, in a
    visible tab, the events of a channel whose path "/channels/<id>"
    occurs anywhere in the path of the page, which includes the pages of
    channels whose id merely starts with <id>.  Only 'channel:created'
    is handled regardless: it always fetches the list again. *)
Theorem ignored_channel_events :
  forall (fetch : Awaited (option (list Channel))) (ev : Event) (st : Stores),
    (ev_type ev = Some "typing" -> channelEventHandler fetch ev st = (st, [])) /\
    (ev_type ev <> Some "channel:created" ->
     ev_user_id ev = userId st ->
     channelEventHandler fetch ev st = (st, [])) /\
    (ev_type ev <> Some "channel:created" ->
     visible st = true ->
     forall pre post,
       pathname st = (pre ++ ("/channels/" ++ ev_channel_id ev) ++ post)%string ->
       channelEventHandler fetch ev st = (st, [])) /\
    (ev_type ev = Some "channel:created" ->
     channelEventHandler fetch ev st
     = (setChannels st (refetch fetch (channels st)), [GetChannels])).
Proof.
  intros fetch ev st. unfold channelEventHandler, isType.
  split; [|split; [|split]].
  - intros ->. reflexivity.
  - intros Hc Hu.
    destruct (optStrEq (ev_type ev) (Some "typing")); [reflexivity|].
    rewrite (proj2 (optStrEq_false _ _) Hc).
    unfold gate. rewrite (proj2 (optStrEq_true _ _) Hu).
    now rewrite andb_false_r.
  - intros Hc Hv pre post Hp.
    destruct (optStrEq (ev_type ev) (Some "typing")); [reflexivity|].
    rewrite (proj2 (optStrEq_false _ _) Hc).
    unfold gate. rewrite Hp, includes_app, Hv. reflexivity.
  - intros ->. reflexivity.
Qed.

Lemma announce_message (ev : Event) (st : Stores) :
  ev_type ev = Some "message" ->
  announce ev st
  = ((if isLastActiveTab st && notificationEnabled st
      then [Notify (messageTitle ev ++ " • Open WebUI") (ev_content ev)
              (WEBUI_API_BASE_URL st ++ "/users/" ++ template (ev_author_id ev)
                 ++ "/profile/image")]
      else [])
     ++ [Toast ("/channels/" ++ ev_channel_id ev) (ev_content ev) (messageTitle ev)])%list.
Proof.
  intros Ht. unfold announce, isType, messageTitle. rewrite Ht. simpl.
  now destruct (strictEq (ev_channel_type ev) (JStr "dm")).
Qed.

(** X13.  A desktop notification for a channel event is raised only for a
    'message' event that passes the gate, and only when this tab is the
    last active one and notifications are enabled; it comes with the toast
    that links to the channel.  Both carry the author's name, followed by
    " (#channel name)" unless the channel is a direct message. *)
Theorem channel_notification_needs_active_tab :
  forall (fetch : Awaited (option (list Channel))) (ev : Event) (st : Stores)
         (t : string) (b : jsval) (i : string),
    In (Notify t b i) (snd (channelEventHandler fetch ev st)) ->
    isLastActiveTab st = true /\ notificationEnabled st = true /\
    ev_type ev = Some "message" /\ gate ev st = true /\
    t = (messageTitle ev ++ " • Open WebUI")%string /\
    (ev_channel_type ev = JStr "dm" -> messageTitle ev = template (ev_author_name ev)) /\
    In (Toast ("/channels/" ++ ev_channel_id ev) (ev_content ev) (messageTitle ev))
       (snd (channelEventHandler fetch ev st)).
Proof.
  intros fetch ev st t b i. unfold channelEventHandler.
  destruct (isType ev "typing"); [intros []|].
  destruct (isType ev "channel:created"); [intros [H|[]]; discriminate H|].
  destruct (gate ev st) eqn:Hg; [|intros []].
  assert (Hann : In (Notify t b i) (announce ev st) ->
                 isLastActiveTab st = true /\ notificationEnabled st = true /\
                 ev_type ev = Some "message" /\
                 t = (messageTitle ev ++ " • Open WebUI")%string /\
                 In (Toast ("/channels/" ++ ev_channel_id ev) (ev_content ev)
                       (messageTitle ev)) (announce ev st)).
  { intros Hin.
    destruct (isType ev "message") eqn:Hm.
    - unfold isType in Hm. apply optStrEq_true in Hm.
      rewrite (announce_message ev st Hm) in *.
      destruct (isLastActiveTab st); destruct (notificationEnabled st);
        simpl in Hin; try (destruct Hin as [Hin|[]]; discriminate Hin).
      destruct Hin as [Hin|[Hin|[]]]; [|discriminate Hin].
      injection Hin as <- _ _.
      repeat split; try reflexivity; try assumption. simpl. auto.
    - unfold announce in Hin. rewrite Hm in Hin. destruct Hin. }
  assert (Hdm : ev_channel_type ev = JStr "dm" ->
                messageTitle ev = template (ev_author_name ev)).
  { intros E. unfold messageTitle. rewrite E. simpl.
    clear. induction (template (ev_author_name ev)) as [|c s IH]; simpl;
      [reflexivity | now rewrite IH]. }
  destruct (channels st) as [chs|].
  - destruct (knownAndNotCurrent ev st chs); simpl.
    + intros Hin. destruct (Hann Hin) as [H1 [H2 [H3 [H4 H5]]]]. tauto.
    + intros [Hin|Hin]; [discriminate Hin|].
      destruct (Hann Hin) as [H1 [H2 [H3 [H4 H5]]]]. tauto.
  - simpl. intros Hin. destruct (Hann Hin) as [H1 [H2 [H3 [H4 H5]]]]. tauto.
Qed.

Lemma gate_setChannels (ev : Event) (st : Stores) (x : option (list Channel)) :
  gate ev (setChannels st x) = gate ev st.
Proof. reflexivity. Qed.

Lemma known_after_touch (ev e : Event) (st : Stores) (chs : list Channel)
  (x : option (list Channel)) :
  knownAndNotCurrent ev (setChannels st x) (map (touch e) chs)
  = knownAndNotCurrent ev st chs.
Proof.
  unfold knownAndNotCurrent. simpl. f_equal.
  induction chs as [|c r IH]; simpl; [reflexivity|].
  now rewrite touch_id, IH.
Qed.

Lemma last_default {A : Type} (x y : A) (l : list A) (d1 d2 : A) :
  last (x :: l) d1 = last (y :: x :: l) d2.
Proof.
  revert x. induction l as [|z l IH]; intros x; [reflexivity|].
  change (last (x :: z :: l) d1) with (last (z :: l) d1).
  change (last (y :: x :: z :: l) d2) with (last (x :: z :: l) d2).
  rewrite (IH z). reflexivity.
Qed.

(** X14.  Messages add up.  After any series of 'message' events of one
    channel that is in the list and is not the one of the [channelId]
    store, each passing the gate, the list has the same channels in the
    same order, the last-message time of that channel is that of the last
    event, and no other channel has changed.  Its unread count has grown
    by the number of events as long as it stays within 2^53 in magnitude,
    the range in which a number counts exactly. *)
Theorem unread_counts_add_up :
  forall (fetch : Awaited (option (list Channel))) (evs : list Event)
         (st : Stores) (chs : list Channel) (cid : string),
    channels st = Some chs ->
    (exists c, In c chs /\ ch_id c = cid) ->
    channelId st <> Some cid ->
    (forall e, In e evs ->
       ev_channel_id e = cid /\ ev_type e = Some "message" /\ gate e st = true) ->
    exists chs',
      channels (handleAll fetch evs st) = Some chs' /\
      map ch_id chs' = map ch_id chs /\
      forall n c, nth_error chs n = Some c ->
        exists c', nth_error chs' n = Some c' /\
          (ch_id c <> cid -> c' = c) /\
          (ch_id c = cid ->
             last_message_at c'
             = last (map ev_created_at evs) (last_message_at c) /\
             (- 9007199254740992 <= unread c ->
              unread c + Z.of_nat (List.length evs) <= 9007199254740992 ->
              unread c' = unread c + Z.of_nat (List.length evs))).
Proof.
  intros fetch evs. induction evs as [|e evs IH]; intros st chs cid Hchs Hex Hcur Hall.
  - exists chs. split; [exact Hchs|]. split; [reflexivity|].
    intros n c Hn. exists c. split; [exact Hn|]. split; [reflexivity|].
    intros _. simpl. split; [reflexivity | lia].
  - destruct (Hall e (or_introl eq_refl)) as [Hid [Hty Hg]].
    assert (Hk : knownAndNotCurrent e st chs = true).
    { apply knownAndNotCurrent_spec. rewrite Hid. now split. }
    assert (Hstep : fst (channelEventHandler fetch e st)
                    = setChannels st (Some (map (touch e) chs))).
    { unfold channelEventHandler, isType. rewrite Hty. simpl.
      now rewrite Hg, Hchs, Hk. }
    unfold handleAll. simpl fold_left. rewrite Hstep.
    fold (handleAll fetch evs (setChannels st (Some (map (touch e) chs)))).
    destruct (IH (setChannels st (Some (map (touch e) chs)))
                 (map (touch e) chs) cid) as [chs' [H1 [H2 H3]]].
    + reflexivity.
    + destruct Hex as [c [Hin Hc]]. exists (touch e c).
      split; [now apply in_map | now rewrite touch_id].
    + exact Hcur.
    + intros e' He'. destruct (Hall e' (or_intror He')) as [A [B C]].
      now rewrite gate_setChannels.
    + exists chs'. split; [exact H1|]. split.
      { rewrite H2, map_map. apply map_ext. intros c. apply touch_id. }
      intros n c Hn.
      destruct (H3 n (touch e c) (map_nth_error (touch e) n chs Hn))
        as [c' [Hn' [Hother Hsame]]].
      exists c'. split; [exact Hn'|]. split.
      * intros Hne. rewrite Hother by now rewrite touch_id.
        unfold touch. rewrite Hid.
        destruct (String.eqb_spec (ch_id c) cid); [contradiction | reflexivity].
      * intros Heq. destruct (Hsame ltac:(now rewrite touch_id)) as [Hl Hu].
        assert (Ht : touch e c = bump e c).
        { unfold touch, isType. rewrite Hid, Heq, String.eqb_refl, Hty.
          reflexivity. }
        rewrite Ht in Hu, Hl. split.
        -- rewrite Hl. simpl last_message_at.
           destruct evs as [|e2 evs2]; [reflexivity|].
           change (map ev_created_at (e :: e2 :: evs2))
             with (ev_created_at e :: map ev_created_at (e2 :: evs2)).
           simpl map. apply last_default.
        -- intros Hlo Hhi.
           change (List.length (e :: evs)) with (S (List.length evs)) in *.
           assert (Hb : unread (bump e c) = unread c + 1).
           { unfold unread at 1, bump. simpl unread_count. fold (unread c).
             unfold numAdd. apply toDouble_exact. lia. }
           rewrite Hu; rewrite Hb; lia.
Qed.

End ChannelFacts.

Lemma channel_notification_needs_active_tab_witness :
  true = true /\ true = true /\
  Some "message" = Some "message" /\
  Channel.gate (eventOn "message") noisyStores = true /\
  "You (#general) • Open WebUI" = (messageTitle (eventOn "message") ++ " • Open WebUI")%string /\
  (JStr "group" = JStr "dm" ->
   messageTitle (eventOn "message") = Js.template (Some "You")) /\
  In (Channel.Toast ("/channels/" ++ "c1") (JStr "hi") (messageTitle (eventOn "message")))
     (snd (Channel.channelEventHandler (Rejects JNull) (eventOn "message") noisyStores)).
Proof.
  apply (channel_notification_needs_active_tab (Rejects JNull) (eventOn "message")
           noisyStores "You (#general) • Open WebUI" (JStr "hi")
           "/api/v1/users/you/profile/image").
  simpl. left. reflexivity.
Defined.

Lemma unread_counts_add_up_witness :
  exists chs',
    Channel.channels
      (handleAll (Rejects JNull) [eventOn "message"; eventOn "message"] stores0)
    = Some chs' /\
    nth_error chs' 1
    = Some {| Channel.ch_id := "c1"; Channel.ch_type := JStr "group";
              Channel.ch_name := Some "general";
              Channel.unread_count := Some 4;
              Channel.last_message_at := JNum 200 |}.
Proof.
  destruct (unread_counts_add_up (Rejects JNull)
              [eventOn "message"; eventOn "message"] stores0
              [chan "c0" (JStr "") 10;
               {| Channel.ch_id := "c1"; Channel.ch_type := JStr "group";
                  Channel.ch_name := Some "general";
                  Channel.unread_count := Some 2;
                  Channel.last_message_at := JNum 100 |}]
              "c1") as [chs' [Hset _]].
  - reflexivity.
  - eexists. split; [right; left; reflexivity | reflexivity].
  - discriminate.
  - intros e [<-|[<-|[]]]; repeat split.
  - exists chs'. split; [exact Hset|].
    vm_compute in Hset. injection Hset as <-. reflexivity.
Defined.

(** ** The package list *)

Section Packages.
Import Sandbox.

Lemma sapp_assoc (a b c : string) : ((a ++ b) ++ c = a ++ b ++ c)%string.
Proof. induction a as [|x a IH]; simpl; [reflexivity | now rewrite IH]. Qed.

Lemma stripPrefix_some (p s t : string) :
  stripPrefix p s = Some t -> s = (p ++ t)%string.
Proof.
  revert s. induction p as [|c p IH]; intros s H; simpl in *.
  - destruct s; now injection H as <-.
  - destruct s as [|d s]; [discriminate H|].
    destruct (Ascii.eqb_spec c d) as [->|]; [|discriminate H].
    now rewrite (IH s H).
Qed.

Lemma slength_app (a b : string) :
  String.length (a ++ b) = (String.length a + String.length b)%nat.
Proof. induction a as [|c a IH]; simpl; [reflexivity | now rewrite IH]. Qed.

Lemma stripAny_some (ps : list string) (s t : string) :
  stripAny ps s = Some t -> exists p, In p ps /\ s = (p ++ t)%string.
Proof.
  induction ps as [|p r IH]; simpl; [discriminate|].
  destruct (stripPrefix p s) as [u|] eqn:E.
  - intros [= ->]. exists p. split; [now left | now apply stripPrefix_some].
  - intros H. destruct (IH H) as [q [Hq Hs]]. exists q. split; [now right | exact Hs].
Qed.

(** No white-space character starts with a word character, and none is
    the start of another. *)
Lemma whiteSpace_first (w : string) :
  In w whiteSpace -> exists c r, w = String c r /\ isWordChar c = false.
Proof.
  intros H. simpl in H.
  repeat (destruct H as [<-|H]; [eexists; eexists; split; reflexivity|]).
  destruct H.
Qed.

Lemma stripSpace_white (w t : string) :
  In w whiteSpace -> stripSpace (w ++ t) = Some t.
Proof.
  intros H. simpl in H.
  repeat (destruct H as [<-|H]; [reflexivity|]). destruct H.
Qed.

Lemma stripSpace_word (c : ascii) (r : string) :
  isWordChar c = true -> stripSpace (String c r) = None.
Proof.
  intros Hc. destruct (stripSpace (String c r)) as [t|] eqn:E; [|reflexivity].
  apply stripAny_some in E. destruct E as [w [Hin E]].
  destruct (whiteSpace_first w Hin) as [c' [r' [-> Hc']]].
  simpl in E. injection E as -> _. congruence.
Qed.

Lemma stripSpace_shorter (s t : string) :
  stripSpace s = Some t -> (String.length t < String.length s)%nat.
Proof.
  intros E. apply stripAny_some in E. destruct E as [w [Hin ->]].
  destruct (whiteSpace_first w Hin) as [c [r [-> _]]].
  simpl. rewrite slength_app. lia.
Qed.

(** Any fuel from the length of the string on gives the same. *)
Lemma skipSpacesWithin_enough (n : nat) :
  forall (m : nat) (s : string),
    (String.length s <= n)%nat -> (String.length s <= m)%nat ->
    skipSpacesWithin n s = skipSpacesWithin m s.
Proof.
  induction n as [|n IH]; intros m s Hn Hm.
  - destruct s; [|simpl in Hn; lia]. now destruct m.
  - destruct m as [|m].
    + destruct s; [reflexivity | simpl in Hm; lia].
    + simpl. destruct (stripSpace s) as [r|] eqn:E; [|reflexivity].
      apply stripSpace_shorter in E. apply IH; lia.
Qed.

Lemma skipSpaces_unfold (s : string) :
  skipSpaces s = match stripSpace s with
                 | Some r => skipSpaces r
                 | None => s
                 end.
Proof.
  unfold skipSpaces. destruct s as [|c s]; [reflexivity|].
  simpl String.length. simpl skipSpacesWithin.
  destruct (stripSpace (String c s)) as [r|] eqn:E; [|reflexivity].
  apply stripSpace_shorter in E. simpl in E.
  apply skipSpacesWithin_enough; lia.
Qed.

Lemma skipSpaces_split (s : string) :
  exists ws,
    spaces ws /\ s = (ws ++ skipSpaces s)%string /\
    stripSpace (skipSpaces s) = None.
Proof.
  remember (String.length s) as n eqn:En.
  assert (Hn : (String.length s <= n)%nat) by lia. clear En.
  revert s Hn. induction n as [|n IH]; intros s Hn.
  - destruct s; [|simpl in Hn; lia].
    exists ""%string. split; [constructor|]. split; reflexivity.
  - rewrite skipSpaces_unfold.
    destruct (stripSpace s) as [r|] eqn:E.
    + pose proof (stripSpace_shorter _ _ E) as Hlt.
      apply stripAny_some in E. destruct E as [w [Hin ->]].
      destruct (IH r ltac:(lia)) as [ws [Hws [Er Hnone]]].
      exists (w ++ ws)%string. split; [now constructor|].
      split; [|exact Hnone]. rewrite sapp_assoc. now rewrite <- Er.
    + exists ""%string. split; [constructor|]. split; [reflexivity | exact E].
Qed.

Lemma skipSpaces_app (ws s : string) :
  spaces ws -> stripSpace s = None -> skipSpaces (ws ++ s) = s.
Proof.
  intros Hws Hs. induction Hws as [|w ws Hw Hws IH].
  - simpl. rewrite skipSpaces_unfold. now rewrite Hs.
  - rewrite sapp_assoc, skipSpaces_unfold, (stripSpace_white _ _ Hw). exact IH.
Qed.

(** [keywordThen] against the pattern it implements. *)
Lemma keywordThen_spec (kw name s : string) :
  startsWord name ->
  keywordThen kw name s = true <->
  exists ws rest,
    s = (kw ++ ws ++ name ++ rest)%string /\
    ws <> ""%string /\ spaces ws /\ boundaryBefore rest = true.
Proof.
  intros Hname. unfold keywordThen. split.
  - destruct (stripPrefix kw s) as [afterKw|] eqn:Ek; [|discriminate].
    destruct (stripSpace afterKw) as [r|] eqn:Es; [|discriminate].
    destruct (stripPrefix name (skipSpaces r)) as [t|] eqn:En; [|discriminate].
    intros H.
    apply stripPrefix_some in Ek. apply stripPrefix_some in En.
    apply stripAny_some in Es. destruct Es as [w [Hw Es]].
    destruct (skipSpaces_split r) as [ws [Hws [Er _]]].
    exists (w ++ ws)%string, t. split; [|split; [|split]].
    + rewrite Ek, Es, sapp_assoc. do 2 f_equal. rewrite Er at 1. now rewrite En.
    + destruct (whiteSpace_first w Hw) as [c [r' [-> _]]]. discriminate.
    + now constructor.
    + now destruct t.
  - intros [ws [rest [-> [Hne [Hws Hb]]]]].
    rewrite stripPrefix_app.
    destruct Hws as [|w ws Hw Hws]; [contradiction|].
    rewrite sapp_assoc, (stripSpace_white _ _ Hw).
    rewrite skipSpaces_app; [| exact Hws |].
    + rewrite stripPrefix_app. now destruct rest.
    + destruct name as [|c name]; [destruct Hname|]. now apply stripSpace_word.
Qed.

Lemma importsFrom_spec (name : string) (s : string) :
  forall b,
    importsFrom b name s = true <->
    exists pre s',
      s = (pre ++ s')%string /\ endsInWord b pre = false /\
      (keywordThen "import" name s' || keywordThen "from" name s') = true.
Proof.
  induction s as [|c r IH]; intros b.
  - simpl. rewrite orb_false_r. split.
    + intros H. apply andb_true_iff in H. destruct H as [Hb H].
      exists ""%string, ""%string. simpl.
      split; [reflexivity|]. split; [now apply negb_true_iff in Hb | exact H].
    + intros [pre [s' [E [Hb H]]]].
      destruct pre; [|discriminate E]. simpl in E, Hb. subst s' b. exact H.
  - simpl. split.
    + intros H. apply orb_true_iff in H. destruct H as [H|H].
      * apply andb_true_iff in H. destruct H as [Hb H].
        exists ""%string, (String c r). simpl.
        split; [reflexivity|]. split; [now apply negb_true_iff in Hb | exact H].
      * apply IH in H. destruct H as [pre [s' [E [Hb H]]]].
        exists (String c pre), s'. simpl. now rewrite E.
    + intros [pre [s' [E [Hb H]]]]. apply orb_true_iff.
      destruct pre as [|d pre]; simpl in E, Hb.
      * left. subst s' b. exact H.
      * right. injection E as <- E. apply IH. now exists pre, s'.
Qed.

Lemma imports_spec (name code : string) :
  startsWord name ->
  imports name code = true <-> mentions name code.
Proof.
  intros Hname. unfold imports, mentions. rewrite importsFrom_spec. split.
  - intros [pre [s' [E [Hb H]]]]. apply orb_true_iff in H.
    destruct H as [H|H]; apply (keywordThen_spec _ _ _ Hname) in H;
      destruct H as [ws [rest [E' [Hne [Hws Hr]]]]].
    + exists pre, "import"%string, ws, rest. subst. repeat split; auto.
    + exists pre, "from"%string, ws, rest. subst. repeat split; auto.
  - intros [pre [kw [ws [rest [E [Hkw [Hne [Hws [Hb Hr]]]]]]]]].
    exists pre, (kw ++ ws ++ name ++ rest)%string.
    split; [exact E|]. split; [exact Hb|]. apply orb_true_iff.
    destruct Hkw as [->| ->]; [left | right];
      apply (keywordThen_spec _ _ _ Hname); exists ws, rest; auto.
Qed.

Lemma filter_subsequence {A B : Type} (f : A -> bool) (g : A -> B) (l : list A) :
  subsequence (map g (filter f l)) (map g l).
Proof.
  induction l as [|x l IH]; simpl; [constructor|].
  destruct (f x); simpl; now constructor.
Qed.

(** X15.  A package is requested from the worker exactly when the code
    mentions its module: the words [import] or [from] at a word boundary,
    then white space (any of the white-space characters of the language,
    one or more), then the module name, then a word boundary.  The
    requests are a selection of the package column of the table, in the
    order of the table, each at most once. *)
Theorem packages_follow_imports :
  forall (code pkg : string),
    (In pkg (packages code) <->
     exists name, In (name, pkg) packageTable /\ mentions name code) /\
    subsequence (packages code) (map snd packageTable) /\
    NoDup (packages code).
Proof.
  intros code pkg.
  assert (Hnames : forall row, In row packageTable -> startsWord (fst row)).
  { intros row Hin. simpl in Hin.
    repeat (destruct Hin as [<-|Hin]; [reflexivity|]). destruct Hin. }
  split; [|split].
  - unfold packages. rewrite in_map_iff. split.
    + intros [[name p] [E Hin]]. simpl in E. subst p.
      apply filter_In in Hin. destruct Hin as [Hin Him].
      exists name. split; [exact Hin|].
      now apply (imports_spec name code (Hnames _ Hin)).
    + intros [name [Hin Hm]]. exists (name, pkg). split; [reflexivity|].
      apply filter_In. split; [exact Hin|].
      now apply (imports_spec name code (Hnames _ Hin)).
  - apply filter_subsequence.
  - unfold packages.
    assert (Hnd : NoDup (map snd packageTable)).
    { simpl. repeat (constructor; [simpl; intuition discriminate|]). constructor. }
    revert Hnd. generalize packageTable. intros tbl.
    induction tbl as [|row tbl IH]; simpl; intros Hnd; [constructor|].
    inversion Hnd as [|? ? Hnot Hrest]; subst.
    destruct (imports (fst row) code); simpl; [|now apply IH].
    constructor; [|now apply IH].
    intros Hin. apply Hnot. apply in_map_iff in Hin.
    destruct Hin as [r [E Hr]]. apply filter_In in Hr.
    apply in_map_iff. exists r. tauto.
Qed.

End Packages.

(** ** The lines of a stream *)

Section StreamLines.
Import Chat.






End StreamLines.


(** ** An uncontested claim *)

Section TabClaims.
Import Tabs.

Lemma in_removeNth_in {A : Type} (k : nat) (l : list A) (x : A) :
  In x (removeNth k l) -> In x l.
Proof.
  unfold removeNth. intros H. apply in_app_or in H. destruct H as [H|H].
  - rewrite <- (firstn_skipn k l). apply in_or_app. now left.
  - rewrite <- (firstn_skipn (S k) l). apply in_or_app. now right.
Qed.

Lemma broadcast_not_self (n i : nat) (data : string) (m : nat * string) :
  In m (broadcast n i data) -> fst m <> i.
Proof.
  unfold broadcast. intros H. apply in_map_iff in H.
  destruct H as [j [<- Hj]]. apply filter_In in Hj. destruct Hj as [_ Hj].
  simpl. apply negb_true_iff in Hj. now apply Nat.eqb_neq.
Qed.

Lemma lastClaim_noClaim (n : nat) (ds : list Event) (acc : option nat) :
  Forall noClaim ds -> lastClaim n ds acc = acc.
Proof.
  induction 1 as [|e ds He _ IH]; [reflexivity|].
  destruct e as [j [|] t s|k]; simpl in *; [destruct He | exact IH | exact IH].
Qed.

Lemma noClaim_keeps_flag (i : nat) (ds : list Event) :
  Forall noClaim ds ->
  forall w1,
    flagOf w1 i = Some true ->
    (forall m, In m (inflight w1) -> fst m <> i) ->
    flagOf (run w1 ds) i = Some true.
Proof.
  induction 1 as [|e ds He _ IH]; intros w1 Hflag Hin; [exact Hflag|].
  change (run w1 (e :: ds)) with (run (step w1 e) ds).
  destruct e as [j [|] t' s|k]; simpl.
  - destruct He.
  - destruct (nth_error (tabs w1) j) as [tj|] eqn:Ej; [|now apply IH].
    simpl. apply IH.
    + unfold flagOf in *. simpl. rewrite nth_error_updTab.
      destruct (Nat.eqb_spec i j) as [->|_]; [|exact Hflag].
      rewrite Ej in *. exact Hflag.
    + simpl. intros m Hm. rewrite app_nil_r in Hm. now apply Hin.
  - destruct (nth_error (inflight w1) k) as [[dest data]|] eqn:Ek; [|now apply IH].
    apply IH.
    + unfold flagOf in *. simpl. rewrite nth_error_updTab.
      destruct (Nat.eqb_spec i dest) as [->|_]; [|exact Hflag].
      exfalso. apply (Hin (dest, data)); [|reflexivity].
      eapply nth_error_In; eauto.
    + simpl. intros m Hm. apply Hin. now apply in_removeNth_in in Hm.
Qed.

(** X16.  A tab never hears its own broadcast.  When a tab claims while
    nothing is in flight and no other tab claims afterwards, its flag
    stays set through every delivery, in whatever order the messages
    arrive, and once all have arrived it is the only tab with the flag. *)
Theorem uncontested_claim_holds :
  forall (w : World) (i : nat) (t : Tab) (nowMs : Z)
         (signOut : Awaited (option string)) (ds : list Event),
    inflight w = [] ->
    nth_error (tabs w) i = Some t ->
    Forall noClaim ds ->
    let w' := run w (VisibilityChange i true nowMs signOut :: ds) in
    flagOf w' i = Some true /\
    (settled w' -> forall j, j <> i -> flagOf w' j <> Some true).
Proof.
  intros w i t nowMs signOut ds Hempty Ht Hds w'. split.
  - subst w'. change (run w (VisibilityChange i true nowMs signOut :: ds))
      with (run (step w (VisibilityChange i true nowMs signOut)) ds).
    apply noClaim_keeps_flag; [exact Hds | |].
    + simpl. rewrite Ht. unfold flagOf. simpl.
      now rewrite nth_error_updTab, Nat.eqb_refl, Ht.
    + simpl. rewrite Ht. simpl. intros m Hm.
      rewrite Hempty, app_nil_r in Hm. simpl in Hm.
      now apply broadcast_not_self in Hm.
  - subst w'. intros Hsettled j Hne Hj.
    pose proof (pending_run (List.length (tabs w))
                  (VisibilityChange i true nowMs signOut :: ds) w None eq_refl I)
      as Hp.
    assert (Hlast : lastClaim (List.length (tabs w))
                      (VisibilityChange i true nowMs signOut :: ds) None = Some i).
    { simpl. assert (Hi : Nat.ltb i (List.length (tabs w)) = true).
      { apply Nat.ltb_lt. apply nth_error_Some. now rewrite Ht. }
      rewrite Hi. now apply lastClaim_noClaim. }
    rewrite Hlast in Hp. unfold pending in Hp.
    unfold flagOf in Hj.
    destruct (nth_error (tabs (run w (VisibilityChange i true nowMs signOut :: ds))) j)
      as [tj|] eqn:Ej; [|discriminate].
    simpl in Hj. injection Hj as Hflag.
    specialize (Hp j tj Ej Hflag Hne).
    unfold settled in Hsettled. rewrite Hsettled in Hp. destruct Hp.
Qed.

End TabClaims.

Lemma packages_follow_imports_witness :
  In "numpy"
     (Sandbox.packages ("import" ++ String "194" (String "160" "numpy") ++ " as np")).
Proof.
  apply (proj1 (packages_follow_imports
                  ("import" ++ String "194" (String "160" "numpy") ++ " as np")
                  "numpy")).
  exists "numpy"%string. split; [simpl; tauto|].
  exists ""%string, "import"%string, (String "194" (String "160" "")),
    " as np"%string.
  split; [reflexivity|]. split; [now left|]. split; [discriminate|].
  split; [|split; reflexivity].
  apply (spaces_cons (String "194" (String "160" "")) ""); [|constructor].
  simpl. tauto.
Defined.

Lemma uncontested_claim_holds_witness :
  let w' := Tabs.run twoTabs [claim 0; Tabs.Deliver 0] in
  Tabs.flagOf w' 0 = Some true /\
  (Tabs.settled w' -> forall j, j <> 0%nat -> Tabs.flagOf w' j <> Some true).
Proof.
  apply (uncontested_claim_holds twoTabs 0 freshTab 1000000999 (Resolves None)
           [Tabs.Deliver 0]).
  - reflexivity.
  - reflexivity.
  - repeat constructor.
Defined.

(** ** The realtime connection *)

Section SocketFacts.
Import Socket.

Lemma needsReload_after (st : State) (info : option VersionInfo) :
  needsReload st info = false ->
  needsReload (fst (onVersion (Resolves info) st)) info = false.
Proof.
  intros H. unfold onVersion. rewrite H. unfold needsReload in *. simpl.
  destruct info as [[[d|] [v|]]|];
    destruct (WEBUI_VERSION st) as [lv|];
    destruct (WEBUI_DEPLOYMENT_ID st) as [ld|];
    simpl in *; rewrite ?String.eqb_refl; simpl;
    try reflexivity; try exact H;
    repeat match type of H with
           | context [String.eqb ?a ?b] => destruct (String.eqb a b)
           end;
    simpl in *; try reflexivity; try discriminate H.
Qed.

Lemma step_keeps_agreement (st : State) (e : Event) (info : option VersionInfo) :
  steady info [e] ->
  needsReload st info = false ->
  needsReload (fst (step st e)) info = false /\ ~ In Reload (snd (step st e)).
Proof.
  intros He H. unfold step.
  destruct (reloaded st); [now split|].
  destruct e as [|res| |t|]; simpl; try (split; [exact H | tauto]).
  - destruct (awaiting st); [now split|].
    destruct res as [i|err].
    + destruct He as [-> _]. split; [now apply needsReload_after|].
      unfold onVersion. rewrite H. simpl.
      destruct (hasToken st); simpl; intuition discriminate.
    + simpl. split; [exact H | tauto].
  - split; [|tauto]. unfold onDisconnect.
    destruct (heartbeatInterval st) as [[|h]|]; exact H.
  - split; [exact H|]. destruct (_ && _); simpl; intuition discriminate.
Qed.

(** X17.  The page never reloads as long as the server keeps giving the
    same version and deployment id: starting from a page whose stored
    values agree with that answer (a fresh page, whose stores are null,
    agrees with every answer), no sequence of connects, disconnects, ticks
    and answers (each the same answer, or a failure of the request) ever
    calls the reload. *)
Theorem steady_server_never_reloads :
  forall (info : option VersionInfo) (evs : list Event) (st : State),
    needsReload st info = false ->
    steady info evs ->
    ~ In Reload (snd (run st evs)) /\ reloaded (fst (run st evs)) = reloaded st.
Proof.
  intros info evs. induction evs as [|e evs IH]; intros st H Hs.
  - simpl. tauto.
  - assert (He : steady info [e] /\ steady info evs).
    { destruct e as [|[i|err]| | |]; simpl in *; tauto. }
    destruct He as [He Hrest].
    destruct (step_keeps_agreement st e info He H) as [H1 H2].
    assert (Hr : reloaded (fst (step st e)) = reloaded st).
    { unfold step. destruct (reloaded st) eqn:Er; [exact Er|].
      destruct e as [|res| |t|]; simpl; try exact Er; try reflexivity.
      - destruct (awaiting st); [exact Er|].
        destruct res as [i|err]; simpl; [|exact Er].
        destruct He as [-> _]. now rewrite H.
      - unfold onDisconnect.
        destruct (heartbeatInterval st) as [[|h]|]; exact Er. }
    simpl. destruct (step st e) as [st1 out1]. simpl in *.
    specialize (IH st1 H1 Hrest).
    destruct (run st1 evs) as [st2 out2]. simpl in *.
    destruct IH as [IH1 IH2]. split.
    + intros Hin. apply in_app_or in Hin. tauto.
    + now rewrite IH2.
Qed.

Lemma steady_server_never_reloads_witness :
  ~ In Reload
      (snd (run (fresh (Some "jwt"))
              [Connect; Version (Resolves (Some sameVersion)); Tick 1; Disconnect;
               Connect; Version (Resolves (Some sameVersion))])) /\
  reloaded
    (fst (run (fresh (Some "jwt"))
            [Connect; Version (Resolves (Some sameVersion)); Tick 1; Disconnect;
             Connect; Version (Resolves (Some sameVersion))]))
  = reloaded (fresh (Some "jwt")).
Proof.
  apply (steady_server_never_reloads (Some sameVersion)
           [Connect; Version (Resolves (Some sameVersion)); Tick 1; Disconnect;
            Connect; Version (Resolves (Some sameVersion))]
           (fresh (Some "jwt"))).
  - reflexivity.
  - simpl. tauto.
Defined.

Lemma run_fst_cons (st : State) (e : Event) (r : list Event) :
  fst (run st (e :: r)) = fst (run (fst (step st e)) r).
Proof. cbn [run]. destruct (step st e) as [s1 o1]. cbn [fst]. now destruct (run s1 r). Qed.

Lemma step_version (st : State) (res : Awaited (option VersionInfo)) :
  reloaded st = false -> awaiting st <> 0%nat ->
  step st (Version res) = onVersion res st.
Proof.
  intros Hr Ha. unfold step. rewrite Hr.
  destruct (awaiting st); [contradiction | reflexivity].
Qed.

Lemma step_disconnect (st : State) :
  reloaded st = false -> fst (step st Disconnect) = onDisconnect st.
Proof. intros Hr. unfold step. now rewrite Hr. Qed.

(** X18.  An upgrade is noticed: when a handshake has stored a version,
    the next handshake that is answered with another version unregisters
    the service workers and reloads the page, installs no heartbeat and
    does not join. *)
Theorem new_version_reloads :
  forall (st : State) (v v' : string) (d d' : option string),
    reloaded st = false ->
    awaiting st <> 0%nat ->
    needsReload st (Some {| deployment_id := d; version := Some v |}) = false ->
    v <> v' ->
    let st1 := fst (run st [Version (Resolves (Some {| deployment_id := d;
                                                       version := Some v |}));
                            Disconnect; Connect]) in
    WEBUI_VERSION st1 = Some v /\
    step st1 (Version (Resolves (Some {| deployment_id := d'; version := Some v' |})))
    = ({| connected := connected st1; WEBUI_VERSION := WEBUI_VERSION st1;
          WEBUI_DEPLOYMENT_ID := WEBUI_DEPLOYMENT_ID st1;
          heartbeatInterval := heartbeatInterval st1; timers := timers st1;
          nextTimer := nextTimer st1; token := token st1;
          awaiting := pred (awaiting st1); reloaded := true |},
       [UnregisterServiceWorkers; Reload]).
Proof.
  intros st v v' d d' Hr Ha Hn Hv st1.
  assert (HA : WEBUI_VERSION (fst (onVersion (Resolves (Some {| deployment_id := d;
                                                  version := Some v |})) st)) = Some v
               /\ reloaded (fst (onVersion (Resolves (Some {| deployment_id := d;
                                                  version := Some v |})) st)) = false).
  { unfold onVersion. rewrite Hn. simpl. auto. }
  destruct HA as [HA1 HA2].
  assert (Hrun : st1 = fst (step (onDisconnect
                   (fst (onVersion (Resolves (Some {| deployment_id := d;
                                                      version := Some v |})) st)))
                   Connect)).
  { subst st1. rewrite !run_fst_cons.
    rewrite (step_version st _ Hr Ha), (step_disconnect _ HA2). reflexivity. }
  set (sA := fst (onVersion (Resolves (Some {| deployment_id := d;
                                               version := Some v |})) st)) in *.
  assert (HB : WEBUI_VERSION (onDisconnect sA) = Some v
               /\ reloaded (onDisconnect sA) = false).
  { unfold onDisconnect. destruct (heartbeatInterval sA) as [[|h]|]; simpl; auto. }
  destruct HB as [HB1 HB2].
  assert (HC : WEBUI_VERSION st1 = Some v /\ reloaded st1 = false
               /\ awaiting st1 <> 0%nat).
  { rewrite Hrun. unfold step. rewrite HB2. simpl. auto. }
  destruct HC as [HC1 [HC2 HC3]]. clearbody st1.
  split; [exact HC1|].
  rewrite (step_version st1 _ HC2 HC3).
  unfold onVersion, needsReload. simpl. rewrite HC1. simpl.
  rewrite (proj2 (String.eqb_neq v' v) (not_eq_sym Hv)). reflexivity.
Qed.

Lemma new_version_reloads_witness :
  let st1 := fst (run (fst (step (fresh None) Connect))
                    [Version (Resolves (Some sameVersion)); Disconnect; Connect]) in
  WEBUI_VERSION st1 = Some "0.6.1" /\
  step st1 (Version (Resolves (Some {| deployment_id := None;
                                       version := Some "0.6.2" |})))
  = ({| connected := connected st1; WEBUI_VERSION := WEBUI_VERSION st1;
        WEBUI_DEPLOYMENT_ID := WEBUI_DEPLOYMENT_ID st1;
        heartbeatInterval := heartbeatInterval st1; timers := timers st1;
        nextTimer := nextTimer st1; token := token st1;
        awaiting := pred (awaiting st1); reloaded := true |},
     [UnregisterServiceWorkers; Reload]).
Proof.
  apply (new_version_reloads (fst (step (fresh None) Connect))
           "0.6.1" "0.6.2" (Some "prod-7") None).
  - reflexivity.
  - discriminate.
  - reflexivity.
  - discriminate.
Defined.

End SocketFacts.

(** ** The heartbeat timers *)

Section HeartbeatTimers.
Import Socket.

Lemma orderly_step (p : Phase) (st : State) (e : Event) :
  inPhase p st -> orderly p [e] ->
  inPhase (phaseAfter p [e]) (fst (step st e)).
Proof.
  intros [[Ht [Hpos Hn]] Hp] Ho. unfold step.
  destruct Hp as [[Hr Hh]|[Hr Hp]]; rewrite Hr.
  { split; [now repeat split|]. left. now split. }
  destruct e as [|res| |t|]; simpl in Ho |- *.
  - destruct p; try destruct Ho. destruct Hp as [Hh Ha].
    split; [now repeat split|]. right. simpl. rewrite Ha. auto.
  - destruct p; try destruct Ho. destruct Hp as [Hh Ha]. rewrite Ha.
    unfold onVersion. destruct res as [info|err]; simpl.
    + destruct (needsReload st info); simpl.
      * split; [now repeat split|]. left. now split.
      * split.
        -- repeat split; simpl; try discriminate.
           ++ rewrite Ht, Hh. reflexivity.
           ++ intros t [= <-]. exact Hn.
        -- right. simpl. rewrite Ha. auto.
    + split; [now repeat split|]. right. simpl. rewrite Ha. auto.
  - destruct p; try destruct Ho. unfold onDisconnect.
    destruct (heartbeatInterval st) as [[|h]|] eqn:Eh; simpl.
    + exfalso. now apply (Hpos 0%nat).
    + split.
      * split; [|split]; simpl.
        -- rewrite Ht. simpl. now rewrite Nat.eqb_refl.
        -- intros t E. discriminate E.
        -- exact Hn.
      * right. simpl. auto.
    + split.
      * split; [|split]; simpl.
        -- rewrite Ht. reflexivity.
        -- intros t E. discriminate E.
        -- exact Hn.
      * right. simpl. auto.
  - split; [now repeat split|]. right. split; [exact Hr|].
    destruct p; exact Hp.
  - split; [now repeat split|]. right. split; [exact Hr|].
    destruct p; exact Hp.
Qed.

Lemma orderly_cons (p : Phase) (e : Event) (r : list Event) :
  orderly p (e :: r) -> orderly p [e] /\ orderly (phaseAfter p [e]) r.
Proof.
  destruct e, p; simpl; tauto.
Qed.

Lemma phaseAfter_cons (p : Phase) (e : Event) (r : list Event) :
  phaseAfter p (e :: r) = phaseAfter (phaseAfter p [e]) r.
Proof. destruct e, p; reflexivity. Qed.

Lemma orderly_run (evs : list Event) :
  forall p st, inPhase p st -> orderly p evs ->
               inPhase (phaseAfter p evs) (fst (run st evs)).
Proof.
  induction evs as [|e evs IH]; intros p st Hp Ho; [exact Hp|].
  apply orderly_cons in Ho. destruct Ho as [He Hr].
  rewrite run_fst_cons, phaseAfter_cons.
  apply IH; [now apply orderly_step | exact Hr].
Qed.

(** X19.  When connects, version answers and disconnects take turns, the
    page never has more than one heartbeat timer: the live timers are
    exactly the one the handle names, and while the connection is down
    there is none. *)
Theorem heartbeat_timer_is_single :
  forall (tok : option string) (evs : list Event),
    orderly Idle evs ->
    let st := fst (run (fresh tok) evs) in
    timers st = match heartbeatInterval st with Some t => [t] | None => [] end /\
    (List.length (timers st) <= 1)%nat /\
    (phaseAfter Idle evs = Idle -> timers st = []).
Proof.
  intros tok evs Ho st.
  assert (H0 : inPhase Idle (fresh tok)).
  { split; [repeat split; simpl; discriminate|]. right. simpl. auto. }
  pose proof (orderly_run evs Idle (fresh tok) H0 Ho) as [[Ht [Hpos Hn]] Hp].
  fold st in Ht, Hp. split; [exact Ht|]. split.
  - rewrite Ht. destruct (heartbeatInterval st); simpl; lia.
  - intros Hidle. rewrite Hidle in Hp. rewrite Ht.
    destruct Hp as [[_ ->]|[_ [-> _]]]; reflexivity.
Qed.

Lemma heartbeat_timer_is_single_witness :
  let st := fst (run (fresh (Some "jwt"))
                   [Connect; Version (Resolves (Some sameVersion)); Tick 1;
                    Disconnect; Connect; Version (Rejects JNull); Disconnect]) in
  timers st = match heartbeatInterval st with Some t => [t] | None => [] end /\
  (List.length (timers st) <= 1)%nat /\
  (phaseAfter Idle [Connect; Version (Resolves (Some sameVersion)); Tick 1;
                    Disconnect; Connect; Version (Rejects JNull); Disconnect]
   = Idle -> timers st = []).
Proof.
  apply (heartbeat_timer_is_single (Some "jwt")
           [Connect; Version (Resolves (Some sameVersion)); Tick 1;
            Disconnect; Connect; Version (Rejects JNull); Disconnect]).
  simpl. exact I.
Defined.

Lemma step_keeps_stray_timer (st : State) (e : Event) (t : nat) :
  In t (timers st) -> heartbeatInterval st <> Some t -> (t < nextTimer st)%nat ->
  In t (timers (fst (step st e)))
  /\ heartbeatInterval (fst (step st e)) <> Some t
  /\ (t < nextTimer (fst (step st e)))%nat.
Proof.
  intros Hin Hh Hlt. unfold step.
  destruct (reloaded st); [now repeat split|].
  destruct e as [|res| |k|]; simpl; try now repeat split.
  - destruct (awaiting st); [now repeat split|].
    unfold onVersion. destruct res as [info|err]; simpl; [|now repeat split].
    destruct (needsReload st info); simpl; [now repeat split|].
    repeat split; [now right | intros [= E]; lia | lia].
  - unfold onDisconnect.
    destruct (heartbeatInterval st) as [[|h]|] eqn:Eh; simpl;
      try now repeat split.
    repeat split; [|discriminate | exact Hlt].
    apply filter_In. split; [exact Hin|].
    apply negb_true_iff, Nat.eqb_neq. intros ->. now apply Hh.
Qed.

(** X20.  Nothing clears a timer that the handle no longer names.  When a
    handshake completes while a heartbeat timer is installed (two connects
    with no disconnect handled between their answers), the older timer
    stays live whatever follows: later disconnects clear only the newest
    one, and the handle never names the older one again. *)
Theorem overwritten_timer_is_never_cleared :
  forall (st : State) (h : nat) (info : option VersionInfo) (evs : list Event),
    reloaded st = false ->
    awaiting st <> 0%nat ->
    heartbeatInterval st = Some h ->
    In h (timers st) ->
    (h < nextTimer st)%nat ->
    needsReload st info = false ->
    let st' := fst (run st (Version (Resolves info) :: evs)) in
    In h (timers st') /\ heartbeatInterval st' <> Some h.
Proof.
  intros st h info evs Hr Ha Hh Hin Hlt Hn st'. subst st'.
  rewrite run_fst_cons, (step_version st _ Hr Ha).
  assert (H1 : In h (timers (fst (onVersion (Resolves info) st)))
               /\ heartbeatInterval (fst (onVersion (Resolves info) st)) <> Some h
               /\ (h < nextTimer (fst (onVersion (Resolves info) st)))%nat).
  { unfold onVersion. rewrite Hn. simpl.
    repeat split; [now right | intros [= E]; lia | lia]. }
  revert H1. generalize (fst (onVersion (Resolves info) st)). clear.
  induction evs as [|e evs IH]; intros s [H1 [H2 H3]]; [now split|].
  rewrite run_fst_cons. apply IH. now apply step_keeps_stray_timer.
Qed.

Lemma overwritten_timer_is_never_cleared_witness :
  let st' := fst (run (fst (run (fresh None)
                              [Connect; Disconnect;
                               Version (Resolves (Some sameVersion)); Connect]))
                    [Version (Resolves (Some sameVersion)); Disconnect; Connect;
                     Version (Resolves (Some sameVersion)); Disconnect]) in
  In 1%nat (timers st') /\ heartbeatInterval st' <> Some 1%nat.
Proof.
  apply (overwritten_timer_is_never_cleared
           (fst (run (fresh None)
                   [Connect; Disconnect; Version (Resolves (Some sameVersion));
                    Connect]))
           1 (Some sameVersion)
           [Disconnect; Connect; Version (Resolves (Some sameVersion)); Disconnect]).
  - reflexivity.
  - discriminate.
  - reflexivity.
  - simpl. left. reflexivity.
  - simpl. lia.
  - reflexivity.
Defined.

(** A disconnect that is handled while [getVersion] is still awaited
    leaves the timer of that handshake behind: after the reconnect two
    timers fire, and each sends a heartbeat. *)
Example two_heartbeats_after_early_disconnect :
  snd (run (fresh None)
         [Connect; Disconnect; Version (Resolves (Some sameVersion));
          Connect; Version (Resolves (Some sameVersion)); Tick 1; Tick 2])
  = [Emit "heartbeat" (JObj []); Emit "heartbeat" (JObj [])].
Proof. reflexivity. Qed.

End HeartbeatTimers.

(** ** Service workers and navigation *)

Section NavigationFacts.
Import Navigation.

Lemma firstRejection_none (rs : list Registration) :
  firstRejection rs = None <->
  Forall (fun r => exists b, unregister r = Resolves b) rs.
Proof.
  induction rs as [|r rest IH]; simpl.
  - split; [constructor | reflexivity].
  - destruct (unregister r) as [b|e] eqn:E.
    + rewrite IH. split; intros H.
      * constructor; [now exists b | exact H].
      * now inversion H.
    + split.
      * intros H. exfalso.
        destruct (firstRejection rest) as [[t e']|];
          [destruct (Nat.leb (settlesAt r) t)|]; discriminate H.
      * intros H. inversion H as [|? ? [b Hb] _]. congruence.
Qed.

Lemma firstRejection_some (rs : list Registration) :
  forall t e,
    firstRejection rs = Some (t, e) ->
    exists r,
      In r rs /\ unregister r = Rejects e /\ settlesAt r = t /\
      forall r' e', In r' rs -> unregister r' = Rejects e' ->
                    (t <= settlesAt r')%nat.
Proof.
  induction rs as [|r rest IH]; intros t e; simpl; [discriminate|].
  destruct (unregister r) as [b|e0] eqn:E.
  - intros H. destruct (IH t e H) as [x [Hin [Hx [Ht Hmin]]]].
    exists x. split; [now right|]. split; [exact Hx|]. split; [exact Ht|].
    intros r' e' [<-|Hr'] Hrej; [congruence | now apply (Hmin r' e')].
  - destruct (firstRejection rest) as [[t1 e1]|] eqn:Er.
    + destruct (IH t1 e1 eq_refl) as [x [Hin [Hx [Ht Hmin]]]].
      destruct (Nat.leb_spec (settlesAt r) t1) as [Hle|Hgt]; intros [= <- <-].
      * exists r. split; [now left|]. split; [exact E|]. split; [reflexivity|].
        intros r' e' [<-|Hr'] Hrej; [lia|].
        specialize (Hmin r' e' Hr' Hrej). lia.
      * exists x. split; [now right|]. split; [exact Hx|]. split; [exact Ht|].
        intros r' e' [<-|Hr'] Hrej; [lia | now apply (Hmin r' e')].
    + intros [= <- <-]. exists r. split; [now left|]. split; [exact E|].
      split; [reflexivity|].
      intros r' e' [<-|Hr'] Hrej; [lia|].
      apply firstRejection_none in Er.
      rewrite Forall_forall in Er. destruct (Er r' Hr') as [b Hb]. congruence.
Qed.

(** X21.  Unregistering the service workers reports success exactly when
    the browser has service workers, the registrations could be listed,
    and every [unregister()] call resolved, to true or to false (a
    registration that was not found does not count as a failure).  Every
    registration found is asked to unregister, even when one of the calls
    fails.  The error that is logged is then that of a call that rejected,
    and of the one that rejected first; nothing is logged exactly on
    success and in a browser without service workers.  Where a navigation
    ends does not depend on the service workers: after an update it is the
    target, whether unregistering succeeded, failed or was not possible. *)
Theorem navigation_after_update :
  forall (sw : option ServiceWorkers),
    let run := unregisterServiceWorkers sw in
    (result run = true <->
     exists rs, sw = Some {| registrations := Resolves rs |}
                /\ Forall (fun r => exists b, unregister r = Resolves b) rs) /\
    (forall rs, sw = Some {| registrations := Resolves rs |} ->
       unregisterCalls run = List.length rs) /\
    (forall rs e, sw = Some {| registrations := Resolves rs |} ->
       logged run = Some e ->
       exists r, In r rs /\ unregister r = Rejects e /\
                 forall r' e', In r' rs -> unregister r' = Rejects e' ->
                               (settlesAt r <= settlesAt r')%nat) /\
    (logged run = None <-> result run = true \/ sw = None) /\
    (forall sw' updated willUnload to location,
       fst (beforeNavigate updated sw willUnload to location)
       = fst (beforeNavigate updated sw' willUnload to location)) /\
    (forall href location,
       fst (beforeNavigate true sw false (Some href) location) = href).
Proof.
  intros sw run. subst run. split; [|split; [|split; [|split; [|split]]]].
  - unfold unregisterServiceWorkers. destruct sw as [[[rs|e]]|]; simpl.
    + destruct (firstRejection rs) as [[t e]|] eqn:E; simpl.
      * split; [discriminate|]. intros [rs' [[= <-] H]].
        apply firstRejection_none in H. rewrite H in E. discriminate E.
      * split; [|reflexivity]. intros _. exists rs. split; [reflexivity|].
        now apply firstRejection_none.
    + split; [discriminate | intros [rs [H _]]; discriminate H].
    + split; [discriminate | intros [rs [H _]]; discriminate H].
  - intros rs ->. unfold unregisterServiceWorkers. simpl.
    now destruct (firstRejection rs) as [[t e]|].
  - intros rs e ->. unfold unregisterServiceWorkers. simpl.
    destruct (firstRejection rs) as [[t e0]|] eqn:E; simpl; [|discriminate].
    intros [= <-].
    destruct (firstRejection_some rs t e0 E) as [r [Hin [Hr [Ht Hmin]]]].
    exists r. split; [exact Hin|]. split; [exact Hr|]. now rewrite Ht.
  - unfold unregisterServiceWorkers. destruct sw as [[[rs|e]]|]; simpl.
    + destruct (firstRejection rs) as [[t e]|]; simpl.
      * split; [discriminate | intros [H|H]; discriminate H].
      * split; [now left | reflexivity].
    + split; [discriminate | intros [H|H]; discriminate H].
    + split; [now right | reflexivity].
  - intros sw' updated willUnload to location. unfold beforeNavigate.
    destruct (updated && negb willUnload), to; reflexivity.
  - reflexivity.
Qed.

End NavigationFacts.

(** ** The user subscription *)

Section SubscriptionFacts.
Import Subscription.

Lemma cleared_oneTimer (st : State) : oneTimer st -> cleared st = [].
Proof.
  intros [Ht [Hpos _]]. unfold cleared.
  destruct (tokenTimer st) as [[|h]|] eqn:E.
  - exfalso. now apply (Hpos 0%nat).
  - rewrite Ht. simpl. now rewrite Nat.eqb_refl.
  - exact Ht.
Qed.

Lemma step_oneTimer (st : State) (e : Event) :
  oneTimer st -> (listeners st <= 1)%nat ->
  oneTimer (fst (step st e)) /\ (listeners (fst (step st e)) <= 1)%nat.
Proof.
  intros Ho Hl. pose proof (cleared_oneTimer st Ho) as Hc.
  destruct Ho as [Ht [Hpos Hn]].
  assert (Hnew : forall ui w,
             oneTimer {| hasSocket := hasSocket st; listeners := listeners st;
                         settings := ui; tokenTimer := Some (nextTimer st);
                         timers := nextTimer st :: cleared st;
                         nextTimer := S (nextTimer st); waiting := w |}).
  { intros ui w. split; [|split]; simpl.
    - now rewrite Hc.
    - intros t [= <-]. exact Hn.
    - discriminate. }
  destruct e as [[|]|res stored]; simpl.
  - split; [now split|]. destruct (hasSocket st); simpl; lia.
  - split; [now split | exact Hl].
  - destruct (waiting st) as [|w]; [split; [now split | exact Hl]|].
    destruct res as [[ui|]|err]; simpl.
    + split; [apply Hnew | exact Hl].
    + destruct stored as [v|err]; simpl.
      * split; [apply Hnew | exact Hl].
      * split; [now split | exact Hl].
    + split; [now split | exact Hl].
Qed.

(** X22.  However often the user store changes and in whatever order the
    settings requests come back, the page has at most one expiry timer
    (each new one replaces the one before) and [chatEventHandler] is
    registered on the socket at most once. *)
Theorem expiry_timer_is_single :
  forall (socket : bool) (evs : list Event),
    let st := run (fresh socket) evs in
    timers st = match tokenTimer st with Some t => [t] | None => [] end /\
    (List.length (timers st) <= 1)%nat /\
    (listeners st <= 1)%nat.
Proof.
  intros socket evs st.
  assert (H : forall s, oneTimer s -> (listeners s <= 1)%nat ->
                oneTimer (run s evs) /\ (listeners (run s evs) <= 1)%nat).
  { clear st. induction evs as [|e evs IH]; intros s Ho Hl; [now split|].
    destruct (step_oneTimer s e Ho Hl) as [Ho' Hl'].
    unfold run. simpl. now apply IH. }
  destruct (H (fresh socket)) as [[Ht _] Hl].
  - split; [reflexivity|]. split; [discriminate | discriminate].
  - simpl. lia.
  - fold st in Ht, Hl. split; [exact Ht|]. split; [|exact Hl].
    rewrite Ht. destruct (tokenTimer st); simpl; lia.
Qed.

End SubscriptionFacts.

(** ** The start of the page *)

Section MountFacts.
Import Mount.
Variable encodeURIComponent : string -> string.



(** X24.  The toasts are dark for every theme whose name holds "dark"
    anywhere, whatever the system prefers; the theme "system" follows the
    system; every other theme gives light toasts. *)
Theorem toaster_theme_cases :
  forall (theme : string) (prefersDark : bool),
    (forall pre post, theme = (pre ++ "dark" ++ post)%string ->
       toasterTheme theme prefersDark = "dark"%string) /\
    (theme = "system"%string ->
       toasterTheme theme prefersDark
       = if prefersDark then "dark"%string else "light"%string) /\
    (includes theme "dark" = false -> theme <> "system"%string ->
       toasterTheme theme prefersDark = "light"%string) /\
    (toasterTheme theme prefersDark = "dark"%string
     \/ toasterTheme theme prefersDark = "light"%string).
Proof.
  intros theme prefersDark. unfold toasterTheme. split; [|split; [|split]].
  - intros pre post ->. now rewrite includes_app.
  - intros ->. reflexivity.
  - intros -> Hs. now rewrite (proj2 (String.eqb_neq _ _) Hs).
  - destruct (includes theme "dark"); [now left|].
    destruct (theme =? "system")%string; [destruct prefersDark|]; auto.
Qed.

End MountFacts.
